(** * CEDARScript structural edit engine and line rule engine

    A shallow embedding of [src/commands/index.ts] (the tree-based
    SELECT / UPDATE / DELETE / INSERT commands, the file-level commands and
    the command factory), of the CASE/WHEN/THEN line engine and the script
    runner of the [CedarDiffServer] class, of the command-node listing of
    [CEDARParser] and of [FileOperations], followed by the properties the
    specification states about them and by further properties read off the
    code.

    Strings are sequences of code units and every offset counts code units.
    A call that may throw returns a [completion].  The host's regular
    expressions are an interface, [RegExpEngine], over which the commands are
    generic. *)

From Stdlib Require Import String Ascii List ZArith Lia Bool Arith.
Import ListNotations.

Local Open Scope string_scope.
Local Open Scope list_scope.

(** ** JavaScript string primitives used by the sources *)

Module JS.

(** First [n] code units of [s] (all of [s] when it is shorter). *)
Fixpoint take (n : nat) (s : string) : string :=
  match n, s with
  | S n', String c s' => String c (take n' s')
  | _, _ => EmptyString
  end.

(** [s] without its first [n] code units (empty when it is shorter). *)
Fixpoint drop (n : nat) (s : string) : string :=
  match n, s with
  | S n', String _ s' => drop n' s'
  | _, _ => s
  end.

(** [s.substring(a, b)]: both indices are clamped to the length and
    swapped when [a > b]. *)
Definition substring (s : string) (a b : nat) : string :=
  let len := String.length s in
  let a' := Nat.min a len in
  let b' := Nat.min b len in
  let lo := Nat.min a' b' in
  let hi := Nat.max a' b' in
  take (hi - lo) (drop lo s).

(** [s.substring(a)]: the missing end index defaults to the length. *)
Definition substring_from (s : string) (a : nat) : string :=
  substring s a (String.length s).

Definition quote_chars : list ascii :=
  [ascii_of_nat 39; ascii_of_nat 34; ascii_of_nat 96].

Definition is_quote (c : ascii) : bool :=
  existsb (Ascii.eqb c) quote_chars.

(** Removes a final quote character: the second alternative of the
    pattern in [strip_quotes]. *)
Fixpoint strip_trailing_quote (s : string) : string :=
  match s with
  | EmptyString => EmptyString
  | String c EmptyString => if is_quote c then EmptyString else s
  | String c s' => String c (strip_trailing_quote s')
  end.

(** [s.replace(re, '')] for the global pattern that matches one quote
    character (single, double or back quote) at the very start or at the
    very end: one leading and one trailing quote character are removed; a
    code unit consumed as the leading quote is not matched again as the
    trailing one. *)
Definition strip_quotes (s : string) : string :=
  match s with
  | EmptyString => EmptyString
  | String c s' =>
      if is_quote c then strip_trailing_quote s' else strip_trailing_quote s
  end.

(** [s.startsWith(p)]. *)
Definition startsWith (s p : string) : bool := String.prefix p s.

(** [s.endsWith(p)]. *)
Definition endsWith (s p : string) : bool :=
  (String.length p <=? String.length s)%nat
  && String.eqb (drop (String.length s - String.length p) s) p.

(** [s.includes(v)]. *)
Fixpoint includes (s v : string) : bool :=
  String.prefix v s
  || match s with
     | EmptyString => false
     | String _ s' => includes s' v
     end.

(** White space of [\s] and of [trim] among the code units below 256. *)
Definition is_space (c : ascii) : bool :=
  let n := nat_of_ascii c in
  ((9 <=? n)%nat && (n <=? 13)%nat) || (n =? 32)%nat || (n =? 160)%nat.

Fixpoint trimLeft (s : string) : string :=
  match s with
  | EmptyString => EmptyString
  | String c s' => if is_space c then trimLeft s' else s
  end.

Fixpoint trimRight (s : string) : string :=
  match s with
  | EmptyString => EmptyString
  | String c s' =>
      match trimRight s' with
      | EmptyString => if is_space c then EmptyString else String c EmptyString
      | r => String c r
      end
  end.

Definition trim (s : string) : string := trimRight (trimLeft s).

(** Length of [s.match(/^\s*/)[0]]; this pattern matches every string. *)
Fixpoint leading_space (s : string) : nat :=
  match s with
  | EmptyString => 0
  | String c s' => if is_space c then S (leading_space s') else 0
  end.

(** [s.repeat(n)]. *)
Fixpoint repeat (s : string) (n : nat) : string :=
  match n with
  | O => EmptyString
  | S n' => s ++ repeat s n'
  end.

(** [xs.join(sep)]. *)
Fixpoint join (sep : string) (xs : list string) : string :=
  match xs with
  | [] => EmptyString
  | [x] => x
  | x :: rest => x ++ sep ++ join sep rest
  end.

Definition newline : string := String (ascii_of_nat 10) EmptyString.

(** JavaScript truthiness of a possibly missing string / boolean field. *)
Definition truthy_string (o : option string) : bool :=
  match o with
  | Some s => negb (String.eqb s EmptyString)
  | None => false
  end.

Definition truthy_bool (o : option bool) : bool :=
  match o with
  | Some b => b
  | None => false
  end.

(** [o && f(o)] on a possibly missing string, as a boolean. *)
Definition guarded (o : option string) (f : string -> bool) : bool :=
  match o with
  | Some s => truthy_string (Some s) && f s
  | None => false
  end.

(** [x || d] on a possibly missing string. *)
Definition or_default (o : option string) (d : string) : string :=
  if truthy_string o then match o with Some s => s | None => d end else d.

(** [xs[i]] for an integer index; [None] stands for [undefined]. *)
Definition index {A : Type} (xs : list A) (i : Z) : option A :=
  if (i <? 0)%Z then None else nth_error xs (Z.to_nat i).

(** [xs[i] = v] for an index inside the array. *)
Fixpoint set_nth {A : Type} (xs : list A) (n : nat) (v : A) : list A :=
  match xs, n with
  | [], _ => []
  | _ :: rest, O => v :: rest
  | x :: rest, S n' => x :: set_nth rest n' v
  end.

(** [xs.splice(n, 1)] on the array itself. *)
Fixpoint splice1 {A : Type} (xs : list A) (n : nat) : list A :=
  match xs, n with
  | [], _ => []
  | _ :: rest, O => rest
  | x :: rest, S n' => x :: splice1 rest n'
  end.

(** [s.split(sep)] for a separator of one code unit: the pieces between
    the separators, the empty ones included; the empty string gives one
    empty piece. *)
Fixpoint split (sep : ascii) (s : string) : list string :=
  match s with
  | EmptyString => [EmptyString]
  | String c s' =>
      if Ascii.eqb c sep then EmptyString :: split sep s'
      else
        match split sep s' with
        | piece :: pieces => String c piece :: pieces
        | [] => [String c EmptyString]
        end
  end.

Definition newline_char : ascii := ascii_of_nat 10.

Definition semicolon_char : ascii := ascii_of_nat 59.

End JS.

(** ** Exceptions and completions

    A call either returns a value or throws. *)

Inductive exn : Type :=
| Error (msg : string)
| SyntaxError
| TypeError
| RangeError.

Inductive completion (A : Type) : Type :=
| Ok (a : A)
| Throw (e : exn).

Arguments Ok {A} a.
Arguments Throw {A} e.

Definition bind {A B : Type} (r : completion A) (k : A -> completion B) : completion B :=
  match r with
  | Ok a => k a
  | Throw e => Throw e
  end.

Notation "x <- r ;; k" := (bind r (fun x => k))
  (at level 61, r at next level, right associativity).

(** ** The longest string of the host

    A host builds no string longer than its limit: the operation that
    would build one throws a [RangeError] instead. *)

Class StringLimit : Type := {
  maxStringLength : Z
}.

(** A string the host has just built. *)
Definition built {SL : StringLimit} (s : string) : completion string :=
  if (Z.of_nat (String.length s) <=? maxStringLength)%Z then Ok s
  else Throw RangeError.

(** [s.repeat(count)] for an integer [count]: a negative count and a result
    over the limit throw. *)
Definition String_repeat {SL : StringLimit} (s : string) (count : Z)
    : completion string :=
  if (count <? 0)%Z then Throw RangeError
  else if (count * Z.of_nat (String.length s) <=? maxStringLength)%Z
  then Ok (JS.repeat s (Z.to_nat count))
  else Throw RangeError.

(** [a + b] on strings. *)
Definition String_concat {SL : StringLimit} (a b : string)
    : completion string :=
  if (Z.of_nat (String.length a) + Z.of_nat (String.length b)
      <=? maxStringLength)%Z
  then Ok (a ++ b)%string
  else Throw RangeError.

(** ** The regular-expression engine of the host

    [RegExp] objects are the host's; the commands only construct them, call
    [test] (which updates [lastIndex] for global and sticky patterns, hence
    the returned object) and pass them to [String.prototype.replace]. *)

Class RegExpEngine : Type := {
  RegExp : Type;
  (** [new RegExp(pattern, flags)]; [None] is the [SyntaxError] case. *)
  new_RegExp : string -> string -> option RegExp;
  (** [re.test(s)]. *)
  RegExp_test : RegExp -> string -> bool * RegExp;
  (** [s.replace(re, repl)]. *)
  String_replace : string -> RegExp -> string -> string;
  (** Capture groups 1 and 2 of [s.match(re)] for the pattern of
      [extractRegexPattern]: a slash, one or more characters, a slash and a
      run of flag letters; [None] when there is no match. *)
  match_regex_literal : string -> option (string * string)
}.

(** ** Syntax trees *)

Module SyntaxNode.

#[local] Set Warnings "-register-all".

Inductive t : Type :=
| mk (type text : string) (startIndex endIndex : nat) (children : list t).

Definition type (n : t) : string := let '(mk ty _ _ _ _) := n in ty.
Definition text (n : t) : string := let '(mk _ tx _ _ _) := n in tx.
Definition startIndex (n : t) : nat := let '(mk _ _ s _ _) := n in s.
Definition endIndex (n : t) : nat := let '(mk _ _ _ e _) := n in e.
Definition children (n : t) : list t := let '(mk _ _ _ _ cs) := n in cs.
Definition childCount (n : t) : nat := List.length (children n).

(** [n.child(i)], [None] standing for [null]. *)
Definition child (n : t) (i : nat) : option t := nth_error (children n) i.

(** The node and all its descendants, in pre-order. *)
Fixpoint subtree (n : t) : list t :=
  match n with
  | mk _ _ _ _ cs => n :: flat_map subtree cs
  end.

End SyntaxNode.

Record Tree : Type := { rootNode : SyntaxNode.t }.

(** A match: the [{startIndex, endIndex}] objects pushed by the resolvers. *)
Record Target : Type := mkTarget { startIndex : nat; endIndex : nat }.

(** ** Target resolution and condition filtering

    [UpdateCommand], [SelectCommand] and [DeleteCommand] each carry their own
    private copy of the methods below; the three copies are the same text, so
    they are embedded once.  The [targets] array the source pushes to is
    threaded through the traversal as an accumulator. *)

Module Resolver.
Section WithEngine.
Context {RE : RegExpEngine}.

Fixpoint findNodesWithType (node : SyntaxNode.t) (type : string)
    (targets : list Target) : list Target :=
  match node with
  | SyntaxNode.mk ty _ s e cs =>
      let targets :=
        if String.eqb ty type then targets ++ [mkTarget s e] else targets in
      fold_left (fun acc child => findNodesWithType child type acc) cs targets
  end.

Fixpoint findNodesWithText (node : SyntaxNode.t) (text : string)
    (targets : list Target) : list Target :=
  match node with
  | SyntaxNode.mk _ tx s e cs =>
      let targets :=
        if String.eqb tx text then targets ++ [mkTarget s e] else targets in
      fold_left (fun acc child => findNodesWithText child text acc) cs targets
  end.

(** The pattern object is threaded as well: [test] may move its
    [lastIndex]. *)
Fixpoint findNodesMatchingRegex (node : SyntaxNode.t)
    (st : RegExp * list Target) : RegExp * list Target :=
  match node with
  | SyntaxNode.mk _ tx s e cs =>
      let '(pattern, targets) := st in
      let '(hit, pattern) := RegExp_test pattern tx in
      let targets := if hit then targets ++ [mkTarget s e] else targets in
      fold_left (fun acc child => findNodesMatchingRegex child acc) cs
        (pattern, targets)
  end.

Definition extractRegexPattern (node : SyntaxNode.t) : completion RegExp :=
  match match_regex_literal (SyntaxNode.text node) with
  | None => Throw (Error "Invalid regex pattern")
  | Some (source, flags) =>
      match new_RegExp source flags with
      | Some re => Ok re
      | None => Throw SyntaxError
      end
  end.

Definition parseCondition (node : SyntaxNode.t) : string * string * string :=
  let field :=
    JS.or_default (option_map SyntaxNode.text (SyntaxNode.child node 0)) "" in
  let operator :=
    JS.or_default (option_map SyntaxNode.text (SyntaxNode.child node 1)) "=" in
  let value :=
    JS.or_default
      (option_map (fun n => JS.strip_quotes (SyntaxNode.text n))
         (SyntaxNode.child node 2)) "" in
  (field, operator, value).

Fixpoint findNodeAtPosition (node : SyntaxNode.t) (startIndex endIndex : nat)
    : option SyntaxNode.t :=
  match node with
  | SyntaxNode.mk _ _ s e cs =>
      if (s =? startIndex)%nat && (e =? endIndex)%nat then Some node
      else
        (fix scan (cs : list SyntaxNode.t) : option SyntaxNode.t :=
           match cs with
           | [] => None
           | child :: rest =>
               if (SyntaxNode.startIndex child <=? startIndex)%nat
                  && (endIndex <=? SyntaxNode.endIndex child)%nat
               then
                 match findNodeAtPosition child startIndex endIndex with
                 | Some found => Some found
                 | None => scan rest
                 end
               else scan rest
           end) cs
  end.

(** The callback given to [targets.filter]. *)
Definition keepTarget (field operator value : string) (tree : Tree)
    (target : Target) : bool :=
  if String.eqb field "type" then
    match findNodeAtPosition (rootNode tree)
            (startIndex target) (endIndex target) with
    | Some node =>
        if String.eqb operator "="
        then String.eqb (SyntaxNode.type node) value
        else JS.includes (SyntaxNode.type node) value
    | None => false
    end
  else if String.eqb field "text" then
    match findNodeAtPosition (rootNode tree)
            (startIndex target) (endIndex target) with
    | Some textNode =>
        if String.eqb operator "="
        then String.eqb (SyntaxNode.text textNode) value
        else JS.includes (SyntaxNode.text textNode) value
    | None => false
    end
  else true.

Definition filterTargetsByCondition (targets : list Target)
    (conditionNode : SyntaxNode.t) (tree : Tree) : list Target :=
  let '(field, operator, value) := parseCondition conditionNode in
  filter (keepTarget field operator value tree) targets.

Definition findTargets (tree : Tree) (targetNode : SyntaxNode.t)
    (conditionNode : option SyntaxNode.t) : completion (list Target) :=
  let rootNode := rootNode tree in
  targets <-
    (if String.eqb (SyntaxNode.type targetNode) "identifier" then
       Ok (findNodesWithType rootNode (SyntaxNode.text targetNode) [])
     else if String.eqb (SyntaxNode.type targetNode) "string" then
       let searchText := JS.strip_quotes (SyntaxNode.text targetNode) in
       Ok (findNodesWithText rootNode searchText [])
     else if String.eqb (SyntaxNode.type targetNode) "regex_pattern" then
       pattern <- extractRegexPattern targetNode ;;
       Ok (snd (findNodesMatchingRegex rootNode (pattern, [])))
     else Ok []) ;;
  match conditionNode with
  | Some conditionNode => Ok (filterTargetsByCondition targets conditionNode tree)
  | None => Ok targets
  end.

End WithEngine.
End Resolver.

(** ** The commands *)

Module UpdateCommand.
Section WithEngine.
Context {RE : RegExpEngine}.

Definition extractContent (node : SyntaxNode.t) : string :=
  JS.strip_quotes (SyntaxNode.text node).

Definition replaceContent (content : string) (start end_ : nat)
    (newContent : string) : string :=
  (JS.substring content 0 start ++ newContent
     ++ JS.substring_from content end_)%string.

(** The [for ... of targets.reverse()] loop. *)
Definition applyTargets (newContent : string) (targets : list Target)
    (content : string) : string :=
  fold_left
    (fun result target =>
       replaceContent result (startIndex target) (endIndex target) newContent)
    (rev targets) content.

Definition execute (node : SyntaxNode.t) (content : string) (tree : Tree)
    : completion string :=
  let targetNode := SyntaxNode.child node 0 in
  let conditionNode := SyntaxNode.child node 1 in
  let contentNode := SyntaxNode.child node 2 in
  match contentNode with
  | None => Throw (Error "Update command requires content")
  | Some contentNode =>
      let newContent := extractContent contentNode in
      match targetNode with
      | None => Ok newContent
      | Some targetNode =>
          targets <- Resolver.findTargets tree targetNode conditionNode ;;
          Ok (applyTargets newContent targets content)
      end
  end.

End WithEngine.
End UpdateCommand.

Module SelectCommand.
Section WithEngine.
Context {RE : RegExpEngine}.

Definition execute (node : SyntaxNode.t) (content : string) (tree : Tree)
    : completion string :=
  let targetNode := SyntaxNode.child node 0 in
  let conditionNode := SyntaxNode.child node 1 in
  match targetNode with
  | None => Ok content
  | Some targetNode =>
      targets <- Resolver.findTargets tree targetNode conditionNode ;;
      Ok (JS.join JS.newline
            (map (fun target =>
                    JS.substring content (startIndex target) (endIndex target))
               targets))
  end.

End WithEngine.
End SelectCommand.

Module DeleteCommand.
Section WithEngine.
Context {RE : RegExpEngine}.

Definition deleteContent (content : string) (start end_ : nat) : string :=
  (JS.substring content 0 start ++ JS.substring_from content end_)%string.

(** The [for ... of targets.reverse()] loop. *)
Definition applyTargets (targets : list Target) (content : string) : string :=
  fold_left
    (fun result target =>
       deleteContent result (startIndex target) (endIndex target))
    (rev targets) content.

Definition execute (node : SyntaxNode.t) (content : string) (tree : Tree)
    : completion string :=
  let targetNode := SyntaxNode.child node 0 in
  let conditionNode := SyntaxNode.child node 1 in
  match targetNode with
  | None => Ok ""
  | Some targetNode =>
      targets <- Resolver.findTargets tree targetNode conditionNode ;;
      Ok (applyTargets targets content)
  end.

End WithEngine.
End DeleteCommand.

Module InsertCommand.

Definition extractContent (node : SyntaxNode.t) : string :=
  JS.strip_quotes (SyntaxNode.text node).

Definition execute (node : SyntaxNode.t) (content : string) (tree : Tree)
    : completion string :=
  let positionNode := SyntaxNode.child node 0 in
  let contentNode := SyntaxNode.child node 1 in
  match positionNode, contentNode with
  | Some positionNode, Some contentNode =>
      let newContent := extractContent contentNode in
      let position := SyntaxNode.text positionNode in
      if String.eqb position "start" then Ok (newContent ++ content)%string
      else if String.eqb position "end" then Ok (content ++ newContent)%string
      else if String.eqb position "before" || String.eqb position "after"
      then Ok content
      else Throw (Error ("Unknown position: " ++ position)%string)
  | _, _ => Throw (Error "Insert command requires position and content")
  end.

End InsertCommand.

Module CreateCommand.

Definition extractContent (node : SyntaxNode.t) : string :=
  JS.strip_quotes (SyntaxNode.text node).

Definition execute (node : SyntaxNode.t) (content : string) (tree : Tree)
    : completion string :=
  let pathNode := SyntaxNode.child node 0 in
  let contentNode := SyntaxNode.child node 1 in
  match pathNode with
  | None => Throw (Error "Create command requires a file path")
  | Some _ =>
      match contentNode with
      | Some contentNode => Ok (extractContent contentNode)
      | None => Ok ""
      end
  end.

End CreateCommand.

Module RemoveFileCommand.

Definition execute (node : SyntaxNode.t) (content : string) (tree : Tree)
    : completion string :=
  match SyntaxNode.child node 0 with
  | None => Throw (Error "Remove command requires a file path")
  | Some _ => Ok ""
  end.

End RemoveFileCommand.

Module MoveFileCommand.

Definition execute (node : SyntaxNode.t) (content : string) (tree : Tree)
    : completion string :=
  match SyntaxNode.child node 0, SyntaxNode.child node 1 with
  | Some _, Some _ => Ok content
  | _, _ => Throw (Error "Move command requires source and target paths")
  end.

End MoveFileCommand.

Module CallCommand.

Definition execute (node : SyntaxNode.t) (content : string) (tree : Tree)
    : completion string :=
  match SyntaxNode.child node 0 with
  | None => Throw (Error "Call command requires a function name")
  | Some _ => Ok content
  end.

End CallCommand.

(** The classes that implement the [Command] interface; an object holds the
    command node it was built from. *)
Inductive CommandClass : Type :=
| IsUpdateCommand
| IsSelectCommand
| IsDeleteCommand
| IsInsertCommand
| IsCreateCommand
| IsRemoveFileCommand
| IsMoveFileCommand
| IsCallCommand.

Record Command : Type := newCommand {
  commandClass : CommandClass;
  commandNode : SyntaxNode.t
}.

(** [command.execute(content, tree)], dispatched on the class. *)
Definition Command_execute {RE : RegExpEngine} (command : Command)
    (content : string) (tree : Tree) : completion string :=
  match commandClass command with
  | IsUpdateCommand => UpdateCommand.execute (commandNode command) content tree
  | IsSelectCommand => SelectCommand.execute (commandNode command) content tree
  | IsDeleteCommand => DeleteCommand.execute (commandNode command) content tree
  | IsInsertCommand => InsertCommand.execute (commandNode command) content tree
  | IsCreateCommand => CreateCommand.execute (commandNode command) content tree
  | IsRemoveFileCommand =>
      RemoveFileCommand.execute (commandNode command) content tree
  | IsMoveFileCommand =>
      MoveFileCommand.execute (commandNode command) content tree
  | IsCallCommand => CallCommand.execute (commandNode command) content tree
  end.

Module CommandFactory.

Definition createCommand (node : SyntaxNode.t) : completion Command :=
  let type := SyntaxNode.type node in
  if String.eqb type "update_command" then Ok (newCommand IsUpdateCommand node)
  else if String.eqb type "select_command"
  then Ok (newCommand IsSelectCommand node)
  else if String.eqb type "delete_command"
  then Ok (newCommand IsDeleteCommand node)
  else if String.eqb type "insert_command"
  then Ok (newCommand IsInsertCommand node)
  else if String.eqb type "create_command"
  then Ok (newCommand IsCreateCommand node)
  else if String.eqb type "rm_file_command"
  then Ok (newCommand IsRemoveFileCommand node)
  else if String.eqb type "mv_file_command"
  then Ok (newCommand IsMoveFileCommand node)
  else if String.eqb type "call_command" then Ok (newCommand IsCallCommand node)
  else Throw (Error ("Unknown command type: " ++ type)%string).

End CommandFactory.

(** The parser class; [parseCommand] and [parseContent] are the host
    parser's and are not modelled. *)
Module CEDARParser.

Definition isCommandNode (node : SyntaxNode.t) : bool :=
  JS.endsWith (SyntaxNode.type node) "_command".

Definition getCommandNodes (tree : Tree) : list SyntaxNode.t :=
  filter isCommandNode (SyntaxNode.children (rootNode tree)).

End CEDARParser.

(** ** File operations

    The host file system as far as these methods use it: a file is a path
    with a content; reading, checking and copying fail on a path that has
    no file; writing and copying create or overwrite their destination;
    unlinking removes a file.  The other failures of a host (permissions,
    directories, devices) are outside this model.  An awaited call is a
    call: the methods run one after the other. *)

Module FileOperations.

Definition FileSystem : Type := string -> option string.

Definition put (fs : FileSystem) (path content : string) : FileSystem :=
  fun p => if String.eqb p path then Some content else fs p.

Definition unlink (fs : FileSystem) (path : string) : FileSystem :=
  fun p => if String.eqb p path then None else fs p.

Section Host.

(** The text of the host's error for a path that has no file. *)
Variable hostError : string -> string.

Definition readFile (fs : FileSystem) (filePath : string) : completion string :=
  match fs filePath with
  | Some content => Ok content
  | None =>
      Throw (Error ("Failed to read file " ++ filePath ++ ": "
                      ++ hostError filePath)%string)
  end.

Definition writeFile (fs : FileSystem) (filePath content : string)
    : FileSystem * completion unit :=
  (put fs filePath content, Ok tt).

Definition fileExists (fs : FileSystem) (filePath : string) : bool :=
  match fs filePath with
  | Some _ => true
  | None => false
  end.

Definition createBackup (fs : FileSystem) (filePath : string)
    : FileSystem * completion string :=
  let backupPath := (filePath ++ ".bak")%string in
  match fs filePath with
  | Some content => (put fs backupPath content, Ok backupPath)
  | None =>
      (fs,
       Throw (Error ("Failed to create backup of " ++ filePath ++ ": "
                       ++ hostError filePath)%string))
  end.

Definition restoreFromBackup (fs : FileSystem) (filePath : string)
    : FileSystem * completion unit :=
  let backupPath := (filePath ++ ".bak")%string in
  match fs backupPath with
  | Some content => (unlink (put fs filePath content) backupPath, Ok tt)
  | None =>
      (fs,
       Throw (Error ("Failed to restore " ++ filePath ++ " from backup: "
                       ++ hostError backupPath)%string))
  end.

End Host.
End FileOperations.

(** ** The line rule engine (CASE / WHEN / THEN) *)

Record CaseWhen : Type := mkWhen {
  empty : option bool;
  indentLevel : option Z;
  lineNumber : option Z;
  lineMatcher : option string;
  regex : option string;
  prefix : option string;
  suffix : option string
}.

Record CaseAction : Type := mkAction {
  remove : option bool;
  subPattern : option string;
  subRepl : option string;
  indent : option Z;
  content : option string
}.

Record CaseStatement : Type := mkCase {
  cases : list (CaseWhen * CaseAction);
  elseAction : option CaseAction
}.

(** The command objects [parseScript] builds. *)
Module ScriptCommand.

Inductive kind : Type := update | create | rm_file | mv_file.

Record t : Type := mk {
  type : kind;
  caseStatement : option CaseStatement;
  filePath : option string;
  content : option string;
  targetPath : option string
}.

End ScriptCommand.

Module CedarDiffServer.
Section WithEngine.
Context {RE : RegExpEngine} {SL : StringLimit}.

(** [new RegExp(source)], without flags. *)
Definition compile (source : string) : completion RegExp :=
  match new_RegExp source "" with
  | Some re => Ok re
  | None => Throw SyntaxError
  end.

Definition matchesCondition (line : string) (when : CaseWhen)
    : completion bool :=
  if JS.truthy_bool (empty when) && String.eqb (JS.trim line) "" then Ok true
  else
    byRegex <-
      (match regex when with
       | Some source =>
           if JS.truthy_string (Some source) then
             re <- compile source ;; Ok (fst (RegExp_test re line))
           else Ok false
       | None => Ok false
       end) ;;
    if byRegex then Ok true
    else if JS.guarded (prefix when) (JS.startsWith line) then Ok true
    else if JS.guarded (suffix when) (JS.endsWith line) then Ok true
    else Ok false.

Definition applyAction (line : string) (then_ : CaseAction)
    : completion string :=
  if JS.truthy_bool (remove then_) then Ok ""
  else
    let afterSub :=
      match indent then_ with
      | Some delta =>
          let currentIndent := Z.of_nat (JS.leading_space line) in
          let newIndent := Z.max 0 (currentIndent + delta) in
          blanks <- String_repeat " " newIndent ;;
          String_concat blanks (JS.trimLeft line)
      | None =>
          match content then_ with
          | Some c => if JS.truthy_string (Some c) then Ok c else Ok line
          | None => Ok line
          end
      end in
    match subPattern then_, subRepl then_ with
    | Some pat, Some repl =>
        if JS.truthy_string (Some pat) && JS.truthy_string (Some repl)
        then re <- compile pat ;; built (String_replace line re repl)
        else afterSub
    | _, _ => afterSub
    end.

(** The inner [for ... of caseStatement.cases] loop on one line: the index
    [i] and the array [result] after it. *)
Fixpoint applyCases (rules : list (CaseWhen * CaseAction)) (line : string)
    (i : Z) (result : list string) : completion (Z * list string) :=
  match rules with
  | [] => Ok (i, result)
  | (when, then_) :: rest =>
      hit <- matchesCondition line when ;;
      if hit then
        newLine <- applyAction line then_ ;;
        let result := JS.set_nth result (Z.to_nat i) newLine in
        if JS.truthy_bool (remove then_)
        then Ok ((i - 1)%Z, JS.splice1 result (Z.to_nat i))
        else Ok (i, result)
      else applyCases rest line i result
  end.

(** One iteration of the outer loop, the increment included.  The loop
    guard keeps [i] inside the array, so [result[i]] is a line; reading
    outside the array would give [undefined]. *)
Definition iteration (rules : list (CaseWhen * CaseAction)) (i : Z)
    (result : list string) : completion (Z * list string) :=
  match JS.index result i with
  | Some line =>
      st <- applyCases rules line i result ;;
      Ok ((fst st + 1)%Z, snd st)
  | None => Throw TypeError
  end.

(** The outer [for (let i = 0; i < result.length; i++)] loop; each
    iteration uses one unit of [fuel], [None] means the fuel ran out. *)
Fixpoint loop (fuel : nat) (rules : list (CaseWhen * CaseAction)) (i : Z)
    (result : list string) : option (completion (list string)) :=
  if (i <? Z.of_nat (List.length result))%Z then
    match fuel with
    | O => None
    | S fuel' =>
        match iteration rules i result with
        | Ok (i', result') => loop fuel' rules i' result'
        | Throw e => Some (Throw e)
        end
    end
  else Some (Ok result).

Definition executeUpdateCommand (fuel : nat) (caseStatement : CaseStatement)
    (lines : list string) : option (completion (list string)) :=
  loop fuel (cases caseStatement) 0%Z lines.

Definition executeCommand (fuel : nat) (command : ScriptCommand.t)
    (lines : list string) : option (completion (list string)) :=
  match ScriptCommand.type command with
  | ScriptCommand.update =>
      match ScriptCommand.caseStatement command with
      | None => Some (Throw (Error "Update command missing case statement"))
      | Some caseStatement => executeUpdateCommand fuel caseStatement lines
      end
  | ScriptCommand.create =>
      match ScriptCommand.content command with
      | Some text =>
          if JS.truthy_string (Some text)
          then Some (Ok (JS.split JS.newline_char text))
          else Some (Ok lines)
      | None => Some (Ok lines)
      end
  | ScriptCommand.rm_file => Some (Ok [])
  | ScriptCommand.mv_file => Some (Ok lines)
  end.

(** The [for (const command of commands)] loop of [executeCedarScript];
    every command gets [fuel] for its own line loop. *)
Fixpoint executeCommands (fuel : nat) (commands : list ScriptCommand.t)
    (result : list string) : option (completion (list string)) :=
  match commands with
  | [] => Some (Ok result)
  | command :: rest =>
      match executeCommand fuel command result with
      | Some (Ok result') => executeCommands fuel rest result'
      | Some (Throw e) => Some (Throw e)
      | None => None
      end
  end.

End WithEngine.

Section Script.
Context {RE : RegExpEngine} {SL : StringLimit}.

(** The four command parsers read their fields with the host's pattern
    matching; [parseScript] only chooses among them. *)
Variable parseUpdateCommand : string -> completion ScriptCommand.t.
Variable parseCreateCommand : string -> completion ScriptCommand.t.
Variable parseRmCommand : string -> completion ScriptCommand.t.
Variable parseMvCommand : string -> completion ScriptCommand.t.

(** The command strings of a script: the trimmed pieces between
    semicolons, the empty ones dropped. *)
Definition commandStrings (script : string) : list string :=
  filter (fun cmd => negb (String.eqb cmd ""))
    (map JS.trim (JS.split JS.semicolon_char script)).

(** The [for (const cmdStr of commandStrings)] loop of [parseScript]. *)
Fixpoint parseCommandStrings (cmdStrs : list string)
    : completion (list ScriptCommand.t) :=
  match cmdStrs with
  | [] => Ok []
  | cmdStr :: rest =>
      if JS.startsWith cmdStr "UPDATE" then
        command <- parseUpdateCommand cmdStr ;;
        commands <- parseCommandStrings rest ;;
        Ok (command :: commands)
      else if JS.startsWith cmdStr "CREATE" then
        command <- parseCreateCommand cmdStr ;;
        commands <- parseCommandStrings rest ;;
        Ok (command :: commands)
      else if JS.startsWith cmdStr "RM" then
        command <- parseRmCommand cmdStr ;;
        commands <- parseCommandStrings rest ;;
        Ok (command :: commands)
      else if JS.startsWith cmdStr "MV" then
        command <- parseMvCommand cmdStr ;;
        commands <- parseCommandStrings rest ;;
        Ok (command :: commands)
      else parseCommandStrings rest
  end.

Definition parseScript (script : string) : completion (list ScriptCommand.t) :=
  parseCommandStrings (commandStrings script).

Definition executeCedarScript (fuel : nat) (content script : string)
    : option (completion string) :=
  let lines := JS.split JS.newline_char content in
  match parseScript script with
  | Throw e => Some (Throw e)
  | Ok commands =>
      match executeCommands fuel commands lines with
      | Some (Ok result) => Some (Ok (JS.join JS.newline result))
      | Some (Throw e) => Some (Throw e)
      | None => None
      end
  end.

End Script.
End CedarDiffServer.

(** ** Vocabulary of the specification *)

(** Two spans overlap when each starts before the other ends. *)
Definition overlaps (a b : Target) : bool :=
  (startIndex a <? endIndex b)%nat && (startIndex b <? endIndex a)%nat.

(** Some two matches of the set overlap. *)
Fixpoint hasOverlap (ms : list Target) : bool :=
  match ms with
  | [] => false
  | m :: rest => existsb (overlaps m) rest || hasOverlap rest
  end.

(** No match starts before an earlier one of the set. *)
Fixpoint ascendingStart (ms : list Target) : bool :=
  match ms with
  | [] => true
  | m :: rest =>
      forallb (fun m' => (startIndex m <=? startIndex m')%nat) rest
      && ascendingStart rest
  end.

(** Every match is a span [s <= e <= len]. *)
Definition validSpans (len : nat) (ms : list Target) : bool :=
  forallb
    (fun m => (startIndex m <=? endIndex m)%nat && (endIndex m <=? len)%nat) ms.

Definition matchLength (m : Target) : nat := endIndex m - startIndex m.

Definition sumMatchLengths (ms : list Target) : nat :=
  list_sum (map matchLength ms).

(** Offset [i] lies inside one of the matches. *)
Definition covered (ms : list Target) (i : nat) : bool :=
  existsb (fun m => (startIndex m <=? i)%nat && (i <? endIndex m)%nat) ms.

(** The code units of [s] whose offset, counted from [pos], satisfies
    [keep], in their original order. *)
Fixpoint keepIf (keep : nat -> bool) (pos : nat) (s : string) : string :=
  match s with
  | EmptyString => EmptyString
  | String ch s' =>
      if keep pos then String ch (keepIf keep (S pos) s')
      else keepIf keep (S pos) s'
  end.

(** The text left of [c] once every span of [ms] is cut out. *)
Definition undeleted (ms : list Target) (c : string) : string :=
  keepIf (fun i => negb (covered ms i)) 0 c.

(** A match set of valid spans, in ascending order of start, no two of
    which overlap. *)
Definition wellPlaced (len : nat) (ms : list Target) : Prop :=
  validSpans len ms = true /\ ascendingStart ms = true /\ hasOverlap ms = false.

(** Some node of the tree spans exactly [s .. e]. *)
Definition hasNodeWithSpan (tree : Tree) (s e : nat) : bool :=
  existsb
    (fun n => (SyntaxNode.startIndex n =? s)%nat && (SyntaxNode.endIndex n =? e)%nat)
    (SyntaxNode.subtree (rootNode tree)).

(** The field a condition node names. *)
Definition conditionField (conditionNode : SyntaxNode.t) : string :=
  fst (fst (Resolver.parseCondition conditionNode)).

(** The first rule of [rules] that matches [line], with the rules before it:
    none of those matches. *)
Definition firstMatch {RE : RegExpEngine} (rules : list (CaseWhen * CaseAction))
    (line : string) (before : list (CaseWhen * CaseAction))
    (when : CaseWhen) (then_ : CaseAction)
    (after : list (CaseWhen * CaseAction)) : Prop :=
  rules = before ++ (when, then_) :: after
  /\ Forall (fun r => CedarDiffServer.matchesCondition line (fst r) = Ok false)
       before
  /\ CedarDiffServer.matchesCondition line when = Ok true.

(** The span of a node, as a match. *)
Definition spanOf (node : SyntaxNode.t) : Target :=
  mkTarget (SyntaxNode.startIndex node) (SyntaxNode.endIndex node).

(** The node spans exactly [s .. e]. *)
Definition hasSpan (s e : nat) (node : SyntaxNode.t) : bool :=
  (SyntaxNode.startIndex node =? s)%nat && (SyntaxNode.endIndex node =? e)%nat.

(** The span of every child lies inside the span of its parent, all the
    way down. *)
Fixpoint wellNested (node : SyntaxNode.t) : bool :=
  match node with
  | SyntaxNode.mk _ _ s e cs =>
      forallb
        (fun c =>
           (s <=? SyntaxNode.startIndex c)%nat
           && (SyntaxNode.endIndex c <=? e)%nat
           && wellNested c)
        cs
  end.

(** Children are laid out from left to right without overlap: each one
    ends before the next begins, all the way down, and no span is
    reversed. *)
Fixpoint siblingsFrom (pos : nat) (cs : list SyntaxNode.t) : bool :=
  match cs with
  | [] => true
  | c :: rest =>
      (pos <=? SyntaxNode.startIndex c)%nat
      && siblingsFrom (SyntaxNode.endIndex c) rest
  end.

Fixpoint wellOrdered (node : SyntaxNode.t) : bool :=
  match node with
  | SyntaxNode.mk _ _ s e cs =>
      (s <=? e)%nat && siblingsFrom s cs && forallb wellOrdered cs
  end.

(** The text of every node is the slice of [content] at its span. *)
Definition consistentWith (content : string) (tree : Tree) : bool :=
  forallb
    (fun n =>
       String.eqb (SyntaxNode.text n)
         (JS.substring content (SyntaxNode.startIndex n) (SyntaxNode.endIndex n)))
    (SyntaxNode.subtree (rootNode tree)).

(** Matches laid out from offset [pos] on: each is a span, begins no
    earlier than the one before ends, and the last ends inside [len]. *)
Fixpoint chainedFrom (pos len : nat) (ms : list Target) : bool :=
  match ms with
  | [] => (pos <=? len)%nat
  | m :: rest =>
      (pos <=? startIndex m)%nat && (startIndex m <=? endIndex m)%nat
      && chainedFrom (endIndex m) len rest
  end.

(** The text of [c] from offset [pos] on with [r] in the place of every
    match. *)
Fixpoint spliced (r c : string) (pos : nat) (ms : list Target) : string :=
  match ms with
  | [] => JS.drop pos c
  | m :: rest =>
      (JS.take (startIndex m - pos) (JS.drop pos c) ++ r
         ++ spliced r c (endIndex m) rest)%string
  end.

(** What the rules make of one line: nothing when the first matching rule
    removes it, the rewritten line when it does not, the line itself when
    no rule matches. *)
Fixpoint rewriteLine {RE : RegExpEngine} {SL : StringLimit}
    (rules : list (CaseWhen * CaseAction)) (line : string)
    : completion (list string) :=
  match rules with
  | [] => Ok [line]
  | (when, then_) :: rest =>
      hit <- CedarDiffServer.matchesCondition line when ;;
      if hit then
        newLine <- CedarDiffServer.applyAction line then_ ;;
        Ok (if JS.truthy_bool (remove then_) then [] else [newLine])
      else rewriteLine rest line
  end.

(** The lines rewritten one by one, from the first to the last. *)
Fixpoint rewriteAll {RE : RegExpEngine} {SL : StringLimit}
    (rules : list (CaseWhen * CaseAction)) (lines : list string)
    : completion (list string) :=
  match lines with
  | [] => Ok []
  | line :: rest =>
      out <- rewriteLine rules line ;;
      outs <- rewriteAll rules rest ;;
      Ok (out ++ outs)
  end.

(** No rule matches the line. *)
Definition unmatched {RE : RegExpEngine} (rules : list (CaseWhen * CaseAction))
    (line : string) : Prop :=
  Forall (fun r => CedarDiffServer.matchesCondition line (fst r) = Ok false)
    rules.

(** An optional string with the empty string read as absent. *)
Definition nonEmpty (o : option string) : option string :=
  match o with
  | Some s => if String.eqb s "" then None else Some s
  | None => None
  end.

(** [xs] is [ys] with some elements left out. *)
Inductive subseq {A : Type} : list A -> list A -> Prop :=
| subseq_nil : subseq [] []
| subseq_skip (y : A) (xs ys : list A) : subseq xs ys -> subseq xs (y :: ys)
| subseq_keep (x : A) (xs ys : list A) : subseq xs ys -> subseq (x :: xs) (x :: ys).

(** A command that leaves the line array as it is: a move, or a creation
    without content. *)
Definition keepsLines (command : ScriptCommand.t) : bool :=
  match ScriptCommand.type command with
  | ScriptCommand.mv_file => true
  | ScriptCommand.create =>
      negb (JS.truthy_string (ScriptCommand.content command))
  | _ => false
  end.

(** The command string begins with none of the four command words. *)
Definition unknownCommand (cmdStr : string) : bool :=
  negb (JS.startsWith cmdStr "UPDATE") && negb (JS.startsWith cmdStr "CREATE")
  && negb (JS.startsWith cmdStr "RM") && negb (JS.startsWith cmdStr "MV").

(** The line is made of white space only. *)
Fixpoint allSpace (s : string) : bool :=
  match s with
  | EmptyString => true
  | String ch s' => JS.is_space ch && allSpace s'
  end.

(** ** Concrete inputs *)

(** A small engine whose patterns are literal substrings: [test] is
    [includes] and leaves the object as it is, [replace] rewrites a line that
    equals the pattern, and a regex literal is a pattern between slashes. *)
#[local] Instance LiteralEngine : RegExpEngine := {|
  RegExp := string;
  new_RegExp := fun source _ =>
    if String.eqb source "(" then None else Some source;
  RegExp_test := fun re s => (JS.includes s re, re);
  String_replace := fun s re repl => if String.eqb s re then repl else s;
  match_regex_literal := fun s =>
    if JS.startsWith s "/" && JS.endsWith s "/" && (2 <? String.length s)%nat
    then Some (JS.take (String.length s - 2) (JS.drop 1 s), "")
    else None
|}.

(** The limit of a 64-bit V8 host: 2^29 - 24 code units. *)
#[local] Instance V8StringLimit : StringLimit := {|
  maxStringLength := 536870888
|}.

Definition leaf (type text : string) (s e : nat) : SyntaxNode.t :=
  SyntaxNode.mk type text s e [].

(** Command nodes, with the children in the places the commands read. *)
Definition condition (field operator value : string) : SyntaxNode.t :=
  SyntaxNode.mk "condition" "" 0 0
    [leaf "field" field 0 0; leaf "operator" operator 0 0;
     leaf "string" value 0 0].

Definition updateCommand (typeName : string) (conditionNode : SyntaxNode.t)
    (text : string) : SyntaxNode.t :=
  SyntaxNode.mk "update_command" "" 0 0
    [leaf "identifier" typeName 0 0; conditionNode; leaf "string" text 0 0].

Definition deleteCommand (typeName : string) : SyntaxNode.t :=
  SyntaxNode.mk "delete_command" "" 0 0 [leaf "identifier" typeName 0 0].

Definition deleteCommandWhere (typeName : string)
    (conditionNode : SyntaxNode.t) : SyntaxNode.t :=
  SyntaxNode.mk "delete_command" "" 0 0
    [leaf "identifier" typeName 0 0; conditionNode].

Definition insertCommand (position text : string) : SyntaxNode.t :=
  SyntaxNode.mk "insert_command" "" 0 0
    [leaf "position" position 0 0; leaf "string" text 0 0;
     leaf "identifier" "name" 0 0].

Definition selectCommand : SyntaxNode.t :=
  SyntaxNode.mk "select_command" "" 0 0 [].

(** The text [foo(bar(x));] with a call nested in a call. *)
Definition nestedSource : string := "foo(bar(x));".

Definition nestedTree : Tree :=
  {| rootNode :=
       SyntaxNode.mk "program" "foo(bar(x));" 0 12
         [SyntaxNode.mk "call" "foo(bar(x))" 0 11
            [leaf "name" "foo" 0 3;
             SyntaxNode.mk "call" "bar(x)" 4 10
               [leaf "name" "bar" 4 7; leaf "name" "x" 8 9]];
          leaf "punct" ";" 11 12] |}.

(** Twelve code units under a tree whose two [item] nodes span [2 .. 8]
    and [5 .. 10]. *)
Definition crossingSource : string := "0123456789ab".

Definition crossingTree : Tree :=
  {| rootNode :=
       SyntaxNode.mk "program" "0123456789ab" 0 12
         [leaf "item" "234567" 2 8; leaf "item" "56789" 5 10] |}.

(** The text [a = b + c] with three sibling names. *)
Definition flatSource : string := "a = b + c".

Definition flatTree : Tree :=
  {| rootNode :=
       SyntaxNode.mk "program" "a = b + c" 0 9
         [leaf "name" "a" 0 1; leaf "op" "=" 2 3; leaf "name" "b" 4 5;
          leaf "op" "+" 6 7; leaf "name" "c" 8 9] |}.

Definition removeRule (when : CaseWhen) : CaseWhen * CaseAction :=
  (when, mkAction (Some true) None None None None).

Definition whenPrefix (p : string) : CaseWhen :=
  mkWhen None None None None None (Some p) None.

Definition whenEmpty : CaseWhen :=
  mkWhen (Some true) None None None None None None.

(** The rules [(Prefix("//"), Remove); (Empty, Remove)] of the example. *)
Definition commentRules : CaseStatement :=
  mkCase [removeRule (whenPrefix "//"); removeRule whenEmpty] None.

Definition commentLines : list string := ["a"; "// comment"; ""; "b"].

(** Further command nodes and inputs. *)
Definition updateWithoutCondition : SyntaxNode.t :=
  SyntaxNode.mk "update_command" "" 0 0
    [leaf "identifier" "name" 0 0; leaf "string" "'XY'" 0 0].

Definition deleteNumber : SyntaxNode.t :=
  SyntaxNode.mk "delete_command" "" 0 0 [leaf "number" "42" 0 0].

Definition selectBy (kind text : string) : SyntaxNode.t :=
  SyntaxNode.mk "select_command" "" 0 0 [leaf kind text 0 0].

Definition indentBy (delta : Z) : CaseAction :=
  mkAction None None None (Some delta) None.

Definition moveCommand : ScriptCommand.t :=
  ScriptCommand.mk ScriptCommand.mv_file None (Some "a") None (Some "b").

(** Stand-ins for the four command parsers: moves are recognised, the
    other commands are refused. *)
Definition refuse (cmdStr : string) : completion ScriptCommand.t :=
  Throw (Error cmdStr).

Definition acceptMove (cmdStr : string) : completion ScriptCommand.t :=
  Ok moveCommand.

(** A file system with the single file [a.txt]. *)
Definition oneFile : FileOperations.FileSystem :=
  fun p => if String.eqb p "a.txt" then Some "hello" else None.

Definition noSuchFile (path : string) : string :=
  ("ENOENT: " ++ path)%string.

(** ** Facts about the string primitives *)

Section StringFacts.

Lemma length_append (a b : string) :
  String.length (a ++ b) = String.length a + String.length b.
Proof. induction a as [|ch a IH]; simpl; [reflexivity | now rewrite IH]. Qed.

Lemma append_empty_r (a : string) : (a ++ "")%string = a.
Proof. induction a as [|ch a IH]; simpl; [reflexivity | now rewrite IH]. Qed.

Lemma append_assoc (a b c : string) :
  ((a ++ b) ++ c)%string = (a ++ (b ++ c))%string.
Proof. induction a as [|ch a IH]; simpl; [reflexivity | now rewrite IH]. Qed.

Lemma drop_0 (c : string) : JS.drop 0 c = c.
Proof. destruct c; reflexivity. Qed.

Lemma take_drop (n : nat) (c : string) :
  (JS.take n c ++ JS.drop n c)%string = c.
Proof.
  revert c; induction n as [|n IH]; intros [|ch c]; simpl; try reflexivity.
  now rewrite IH.
Qed.

Lemma length_take (n : nat) (c : string) :
  String.length (JS.take n c) = Nat.min n (String.length c).
Proof.
  revert c; induction n as [|n IH]; intros [|ch c]; simpl; try reflexivity.
  now rewrite IH.
Qed.

Lemma length_drop (n : nat) (c : string) :
  String.length (JS.drop n c) = String.length c - n.
Proof.
  revert c; induction n as [|n IH]; intros [|ch c]; simpl; try reflexivity.
  apply IH.
Qed.

Lemma take_all (n : nat) (c : string) :
  String.length c <= n -> JS.take n c = c.
Proof.
  revert c; induction n as [|n IH]; intros [|ch c] H; simpl in *;
    try reflexivity; try lia.
  rewrite IH; [reflexivity | lia].
Qed.

Lemma drop_all (n : nat) (c : string) :
  String.length c <= n -> JS.drop n c = "".
Proof.
  revert c; induction n as [|n IH]; intros [|ch c] H; simpl in *;
    try reflexivity; try lia.
  apply IH; lia.
Qed.

Lemma take_min (n : nat) (c : string) :
  JS.take (Nat.min n (String.length c)) c = JS.take n c.
Proof.
  destruct (Nat.le_ge_cases n (String.length c)) as [H|H].
  - now rewrite Nat.min_l.
  - rewrite Nat.min_r by assumption.
    now rewrite !take_all by lia.
Qed.

Lemma take_append_exact (a b : string) :
  JS.take (String.length a) (a ++ b) = a.
Proof. induction a as [|ch a IH]; simpl; [now destruct b | now rewrite IH]. Qed.

Lemma drop_append_exact (a b : string) :
  JS.drop (String.length a) (a ++ b) = b.
Proof. induction a as [|ch a IH]; simpl; [apply drop_0 | exact IH]. Qed.

Lemma take_append_le (n : nat) (a b : string) :
  n <= String.length a -> JS.take n (a ++ b) = JS.take n a.
Proof.
  revert a; induction n as [|n IH]; intros [|ch a] H; simpl in *;
    try reflexivity; try lia.
  rewrite IH; [reflexivity | lia].
Qed.

Lemma drop_append_le (n : nat) (a b : string) :
  n <= String.length a -> JS.drop n (a ++ b) = (JS.drop n a ++ b)%string.
Proof.
  revert a; induction n as [|n IH]; intros a H.
  - now rewrite !drop_0.
  - destruct a as [|ch a]; simpl in *; [lia | apply IH; lia].
Qed.

Lemma take_take (n m : nat) (c : string) :
  n <= m -> JS.take n (JS.take m c) = JS.take n c.
Proof.
  revert m c; induction n as [|n IH]; intros [|m] [|ch c] H; simpl;
    try reflexivity; try lia.
  rewrite IH; [reflexivity | lia].
Qed.

Lemma drop_take (n m : nat) (c : string) :
  JS.drop n (JS.take m c) = JS.take (m - n) (JS.drop n c).
Proof.
  revert m c; induction n as [|n IH]; intros m c.
  - now rewrite !drop_0, Nat.sub_0_r.
  - destruct m as [|m], c as [|ch c]; simpl; try reflexivity.
    + now destruct (m - n).
    + apply IH.
Qed.

(** [c.substring(0, s)] is the prefix of [c] of length [s]. *)
Lemma substring_0 (c : string) (s : nat) : JS.substring c 0 s = JS.take s c.
Proof.
  unfold JS.substring.
  change (Nat.min 0 (String.length c)) with 0.
  change (Nat.min 0 (Nat.min s (String.length c))) with 0.
  change (Nat.max 0 (Nat.min s (String.length c)))
    with (Nat.min s (String.length c)).
  rewrite Nat.sub_0_r, drop_0.
  apply take_min.
Qed.

(** [c.substring(e)] is [c] without its first [e] code units. *)
Lemma substring_from_drop (c : string) (e : nat) :
  JS.substring_from c e = JS.drop e c.
Proof.
  unfold JS.substring_from, JS.substring.
  rewrite Nat.min_id.
  set (len := String.length c).
  rewrite (Nat.min_l (Nat.min e len) len) by apply Nat.le_min_r.
  rewrite (Nat.max_r (Nat.min e len) len) by apply Nat.le_min_r.
  rewrite take_all by (rewrite length_drop; fold len; lia).
  destruct (Nat.le_ge_cases e len) as [H|H].
  - now rewrite Nat.min_l.
  - rewrite Nat.min_r by assumption.
    now rewrite !drop_all by (fold len; lia).
Qed.

(** [c.substring(s, e)] for a span inside [c]. *)
Lemma substring_span (c : string) (s e : nat) :
  s <= e -> e <= String.length c ->
  JS.substring c s e = JS.take (e - s) (JS.drop s c).
Proof.
  intros Hse He. unfold JS.substring.
  rewrite (Nat.min_l s) by lia. rewrite (Nat.min_l e) by lia.
  rewrite (Nat.min_l s e), (Nat.max_r s e) by lia.
  reflexivity.
Qed.

Lemma get_take (i n : nat) (c : string) :
  i < n -> String.get i (JS.take n c) = String.get i c.
Proof.
  revert n c; induction i as [|i IH]; intros [|n] [|ch c] H; simpl;
    try reflexivity; try lia.
  apply IH; lia.
Qed.

Lemma get_drop (i n : nat) (c : string) :
  String.get i (JS.drop n c) = String.get (n + i) c.
Proof.
  revert c; induction n as [|n IH]; intros c.
  - now rewrite drop_0.
  - destruct c as [|ch c]; simpl; [now destruct i | apply IH].
Qed.

Lemma get_append_l (i : nat) (a b : string) :
  i < String.length a -> String.get i (a ++ b) = String.get i a.
Proof. intros H. symmetry. now apply append_correct1. Qed.

Lemma get_append_r (i : nat) (a b : string) :
  String.get (String.length a + i) (a ++ b) = String.get i b.
Proof. rewrite Nat.add_comm. symmetry. apply append_correct2. Qed.

End StringFacts.

(** ** Properties of the tree-based commands *)

Section CommandFacts.
Context {RE : RegExpEngine}.

(** One replacement at a span inside the content. *)
Lemma replaceContent_spec (c r : string) (s e : nat) :
  UpdateCommand.replaceContent c s e r = (JS.take s c ++ r ++ JS.drop e c)%string.
Proof.
  unfold UpdateCommand.replaceContent.
  now rewrite substring_0, substring_from_drop.
Qed.

(** One deletion. *)
Lemma deleteContent_spec (c : string) (s e : nat) :
  DeleteCommand.deleteContent c s e = (JS.take s c ++ JS.drop e c)%string.
Proof.
  unfold DeleteCommand.deleteContent.
  now rewrite substring_0, substring_from_drop.
Qed.

(** The reversed loop of UPDATE, read from the first match to the last. *)
Lemma update_applyTargets_cons (r : string) (m : Target) (ms : list Target)
    (c : string) :
  UpdateCommand.applyTargets r (m :: ms) c =
  UpdateCommand.replaceContent (UpdateCommand.applyTargets r ms c)
    (startIndex m) (endIndex m) r.
Proof.
  unfold UpdateCommand.applyTargets. simpl rev.
  now rewrite fold_left_app.
Qed.

(** The reversed loop of DELETE, read from the first match to the last. *)
Lemma delete_applyTargets_cons (m : Target) (ms : list Target) (c : string) :
  DeleteCommand.applyTargets (m :: ms) c =
  DeleteCommand.deleteContent (DeleteCommand.applyTargets ms c)
    (startIndex m) (endIndex m).
Proof.
  unfold DeleteCommand.applyTargets. simpl rev.
  now rewrite fold_left_app.
Qed.

(** C3.  When the target of an UPDATE resolves to the single match [(s, e)]
    with [s <= e <= len(c)], the command returns [c[:s] + r + c[e:]] for the
    replacement text [r]; the code units before offset [s] and those from
    offset [e] on are the ones of [c], the latter moved by the change of
    length. *)
Theorem update_single_match
    (node targetNode contentNode : SyntaxNode.t) (c : string) (tree : Tree)
    (s e : nat) :
  SyntaxNode.child node 0 = Some targetNode ->
  SyntaxNode.child node 2 = Some contentNode ->
  Resolver.findTargets tree targetNode (SyntaxNode.child node 1)
    = Ok [mkTarget s e] ->
  s <= e -> e <= String.length c ->
  let r := UpdateCommand.extractContent contentNode in
  exists out,
    UpdateCommand.execute node c tree = Ok out
    /\ out = (JS.take s c ++ r ++ JS.drop e c)%string
    /\ (forall i, i < s -> String.get i out = String.get i c)
    /\ (forall j, e <= j ->
          String.get (s + String.length r + (j - e)) out = String.get j c).
Proof.
  intros Htarget Hcontent Hfound Hse He r.
  exists (JS.take s c ++ r ++ JS.drop e c)%string.
  assert (Hlen : String.length (JS.take s c) = s)
    by (rewrite length_take; lia).
  split; [|split; [reflexivity|split]].
  - unfold UpdateCommand.execute.
    rewrite Hcontent, Htarget, Hfound. cbn [bind].
    unfold UpdateCommand.applyTargets. cbn [rev app fold_left startIndex endIndex].
    now rewrite replaceContent_spec.
  - intros i Hi.
    rewrite get_append_l by lia.
    now apply get_take.
  - intros j Hj.
    rewrite <- Hlen at 1.
    rewrite <- Nat.add_assoc, get_append_r, get_append_r, get_drop.
    f_equal; lia.
Qed.

(** C9.  A SELECT whose command node has no target child returns the input
    content as it is, whatever the tree. *)
Theorem select_without_target (node : SyntaxNode.t) (c : string) (tree : Tree) :
  SyntaxNode.child node 0 = None ->
  SelectCommand.execute node c tree = Ok c.
Proof.
  intros Hnone. unfold SelectCommand.execute. now rewrite Hnone.
Qed.

End CommandFacts.

(** C6.  INSERT at [start] returns [x + c], INSERT at [end] returns [c + y],
    one after the other gives [x + c + y]; the tree (hence any match set) is
    not consulted, and inserting the empty text at [start] returns [c]. *)
Theorem insert_start_end
    (startNode endNode ps cs pe ce : SyntaxNode.t) (c : string)
    (tree1 tree2 : Tree) :
  SyntaxNode.child startNode 0 = Some ps -> SyntaxNode.text ps = "start" ->
  SyntaxNode.child startNode 1 = Some cs ->
  SyntaxNode.child endNode 0 = Some pe -> SyntaxNode.text pe = "end" ->
  SyntaxNode.child endNode 1 = Some ce ->
  let x := InsertCommand.extractContent cs in
  let y := InsertCommand.extractContent ce in
  InsertCommand.execute startNode c tree1 = Ok (x ++ c)%string
  /\ InsertCommand.execute endNode c tree2 = Ok (c ++ y)%string
  /\ (mid <- InsertCommand.execute startNode c tree1 ;;
      InsertCommand.execute endNode mid tree2) = Ok (x ++ c ++ y)%string
  /\ (x = "" -> InsertCommand.execute startNode c tree1 = Ok c).
Proof.
  intros Hps Hstart Hcs Hpe Hend Hce x y.
  assert (Hs : forall t, InsertCommand.execute startNode c t = Ok (x ++ c)%string).
  { intros t. unfold InsertCommand.execute. now rewrite Hps, Hcs, Hstart. }
  assert (He : forall d t, InsertCommand.execute endNode d t = Ok (d ++ y)%string).
  { intros d t. unfold InsertCommand.execute. now rewrite Hpe, Hce, Hend. }
  repeat split.
  - apply Hs.
  - apply He.
  - rewrite Hs. cbn [bind]. rewrite He. now rewrite append_assoc.
  - intros Hx. rewrite Hs, Hx. reflexivity.
Qed.

(** C5.  INSERT with position [before] does not insert: on the content
    [a = b + c] with the text [X] it returns the content unchanged, and so
    does position [after]. *)
Theorem insert_relative_returns_content :
  InsertCommand.execute (insertCommand "before" "'X'") flatSource flatTree
    = Ok "a = b + c"
  /\ InsertCommand.execute (insertCommand "after" "'X'") flatSource flatTree
    = Ok "a = b + c".
Proof. split; reflexivity. Qed.

(** ** Overlapping matches and condition filtering *)

Section ResolverFacts.
Context {RE : RegExpEngine}.

(** Induction on a node with the property available for every child. *)
Lemma SyntaxNode_Forall_ind (P : SyntaxNode.t -> Prop) :
  (forall ty tx s e cs, Forall P cs -> P (SyntaxNode.mk ty tx s e cs)) ->
  forall n, P n.
Proof.
  intros step. fix IH 1. intros [ty tx s e cs].
  apply step. induction cs as [|c cs IHcs]; constructor.
  - apply IH.
  - exact IHcs.
Qed.

(** A node returned by the lookup belongs to the tree and has the span
    that was asked for. *)
Lemma findNodeAtPosition_sound (s e : nat) (root found : SyntaxNode.t) :
  Resolver.findNodeAtPosition root s e = Some found ->
  In found (SyntaxNode.subtree root)
  /\ SyntaxNode.startIndex found = s /\ SyntaxNode.endIndex found = e.
Proof.
  revert found. induction root as [ty tx ns ne cs IH] using SyntaxNode_Forall_ind.
  intros found. cbn [Resolver.findNodeAtPosition SyntaxNode.subtree].
  destruct ((ns =? s)%nat && (ne =? e)%nat) eqn:Hhere.
  - intros [= <-]. apply andb_true_iff in Hhere as [Hs He].
    apply Nat.eqb_eq in Hs, He. cbn. auto.
  - clear Hhere. intros Hscan.
    enough (In found (flat_map SyntaxNode.subtree cs)
            /\ SyntaxNode.startIndex found = s /\ SyntaxNode.endIndex found = e)
      as [Hin Hspan] by (split; [right; exact Hin | exact Hspan]).
    induction IH as [|c cs Hc _ IHcs]; [discriminate|].
    cbn [flat_map].
    destruct ((SyntaxNode.startIndex c <=? s)%nat
              && (e <=? SyntaxNode.endIndex c)%nat).
    + destruct (Resolver.findNodeAtPosition c s e) as [f|] eqn:Hf.
      * injection Hscan as <-. destruct (Hc f eq_refl) as [Hin Hspan].
        split; [apply in_or_app; left; exact Hin | exact Hspan].
      * destruct (IHcs Hscan) as [Hin Hspan].
        split; [apply in_or_app; right; exact Hin | exact Hspan].
    + destruct (IHcs Hscan) as [Hin Hspan].
      split; [apply in_or_app; right; exact Hin | exact Hspan].
Qed.

(** No node with the span: the lookup returns [null]. *)
Lemma findNodeAtPosition_none (tree : Tree) (s e : nat) :
  hasNodeWithSpan tree s e = false ->
  Resolver.findNodeAtPosition (rootNode tree) s e = None.
Proof.
  intros Hnone.
  destruct (Resolver.findNodeAtPosition (rootNode tree) s e) as [n|] eqn:Hf;
    [|reflexivity].
  apply findNodeAtPosition_sound in Hf as [Hin [Hs He]].
  unfold hasNodeWithSpan in Hnone.
  assert (Hex : existsb
            (fun n => (SyntaxNode.startIndex n =? s)%nat
                      && (SyntaxNode.endIndex n =? e)%nat)
            (SyntaxNode.subtree (rootNode tree)) = true).
  { apply existsb_exists. exists n. split; [exact Hin|].
    now rewrite Hs, He, !Nat.eqb_refl. }
  congruence.
Qed.

(** C10.  With a condition on [type] or on [text], a match whose span is the
    span of no node of the tree is dropped by the filter, wherever it stands
    in the match set: the filtered set is the one of the matches before it
    followed by the one of the matches after it, and does not contain it.
    The filter is a total function: it returns a match set for every
    input. *)
Theorem unlocatable_match_excluded
    (before after : list Target) (t : Target)
    (conditionNode : SyntaxNode.t) (tree : Tree) :
  hasNodeWithSpan tree (startIndex t) (endIndex t) = false ->
  conditionField conditionNode = "type"
  \/ conditionField conditionNode = "text" ->
  Resolver.filterTargetsByCondition (before ++ t :: after) conditionNode tree
  = Resolver.filterTargetsByCondition before conditionNode tree
    ++ Resolver.filterTargetsByCondition after conditionNode tree
  /\ ~ In t (Resolver.filterTargetsByCondition (before ++ t :: after)
               conditionNode tree).
Proof.
  intros Hspan Hfield.
  unfold conditionField, Resolver.filterTargetsByCondition in *.
  destruct (Resolver.parseCondition conditionNode) as [[field operator] value].
  cbn [fst] in Hfield.
  assert (Hdrop : Resolver.keepTarget field operator value tree t = false).
  { unfold Resolver.keepTarget.
    rewrite (findNodeAtPosition_none _ _ _ Hspan).
    destruct Hfield as [-> | ->]; reflexivity. }
  split.
  - rewrite filter_app. cbn [filter]. now rewrite Hdrop.
  - intros Hin. apply filter_In in Hin as [_ Hkeep]. congruence.
Qed.

(** C2 (as the code has it).  A condition whose field is neither [type] nor
    [text] filters nothing: the match set comes back unchanged, and no
    error is raised. *)
Theorem unknown_field_keeps_all
    (targets : list Target) (conditionNode : SyntaxNode.t) (tree : Tree) :
  conditionField conditionNode <> "type" ->
  conditionField conditionNode <> "text" ->
  Resolver.filterTargetsByCondition targets conditionNode tree = targets.
Proof.
  intros Htype Htext.
  unfold conditionField, Resolver.filterTargetsByCondition in *.
  destruct (Resolver.parseCondition conditionNode) as [[field operator] value].
  cbn [fst] in Htype, Htext.
  apply String.eqb_neq in Htype, Htext.
  induction targets as [|t targets IH]; [reflexivity|].
  cbn [filter]. unfold Resolver.keepTarget at 1.
  rewrite Htype, Htext. now rewrite IH.
Qed.

End ResolverFacts.

(** ** Properties of the line rule engine *)

Section ArrayFacts.
Context {A : Type}.

Lemma length_set_nth (xs : list A) (n : nat) (v : A) :
  List.length (JS.set_nth xs n v) = List.length xs.
Proof.
  revert n; induction xs as [|x xs IH]; intros [|n]; simpl; try reflexivity.
  now rewrite IH.
Qed.

Lemma length_splice1 (xs : list A) (n : nat) :
  n < List.length xs -> S (List.length (JS.splice1 xs n)) = List.length xs.
Proof.
  revert n; induction xs as [|x xs IH]; intros [|n] H; simpl in *;
    try lia.
  rewrite IH; [reflexivity | lia].
Qed.

Lemma firstn_set_nth (xs : list A) (n : nat) (v : A) :
  firstn n (JS.set_nth xs n v) = firstn n xs.
Proof.
  revert n; induction xs as [|x xs IH]; intros [|n]; simpl; try reflexivity.
  now rewrite IH.
Qed.

Lemma firstn_splice1 (xs : list A) (n : nat) :
  firstn n (JS.splice1 xs n) = firstn n xs.
Proof.
  revert n; induction xs as [|x xs IH]; intros [|n]; simpl; try reflexivity.
  now rewrite IH.
Qed.

Lemma splice1_set_nth (xs : list A) (n : nat) (v : A) :
  JS.splice1 (JS.set_nth xs n v) n = JS.splice1 xs n.
Proof.
  revert n; induction xs as [|x xs IH]; intros [|n]; simpl; try reflexivity.
  now rewrite IH.
Qed.

Lemma nth_error_splice1 (xs : list A) (n : nat) :
  nth_error (JS.splice1 xs n) n = nth_error xs (S n).
Proof.
  revert n; induction xs as [|x xs IH]; intros [|n]; simpl; try reflexivity.
  apply IH.
Qed.

(** Inside the array [xs[i]] is defined. *)
Lemma index_in_range (xs : list A) (i : Z) :
  (0 <= i < Z.of_nat (List.length xs))%Z -> exists x, JS.index xs i = Some x.
Proof.
  intros [Hlo Hhi]. unfold JS.index.
  destruct (Z.ltb_spec i 0) as [Hneg|_]; [lia|].
  destruct (nth_error xs (Z.to_nat i)) as [x|] eqn:Hnth; [now exists x|].
  apply nth_error_None in Hnth. lia.
Qed.

End ArrayFacts.

Section LineEngineFacts.
Context {RE : RegExpEngine} {SL : StringLimit}.

(** Rules whose condition is false are passed over. *)
Lemma applyCases_skip (before rest : list (CaseWhen * CaseAction))
    (line : string) (i : Z) (arr : list string) :
  Forall (fun r => CedarDiffServer.matchesCondition line (fst r) = Ok false)
    before ->
  CedarDiffServer.applyCases (before ++ rest) line i arr
  = CedarDiffServer.applyCases rest line i arr.
Proof.
  induction 1 as [|[w t] before Hw _ IH]; [reflexivity|].
  cbn [app CedarDiffServer.applyCases]. cbn [fst] in Hw.
  now rewrite Hw.
Qed.

(** A rule whose condition is true ends the inner loop. *)
Lemma applyCases_hit (when : CaseWhen) (then_ : CaseAction)
    (rest : list (CaseWhen * CaseAction)) (line : string) (i : Z)
    (arr : list string) :
  CedarDiffServer.matchesCondition line when = Ok true ->
  CedarDiffServer.applyCases ((when, then_) :: rest) line i arr
  = CedarDiffServer.applyCases [(when, then_)] line i arr.
Proof.
  intros Hhit. cbn [CedarDiffServer.applyCases]. rewrite Hhit. cbn [bind].
  destruct (CedarDiffServer.applyAction line then_); cbn [bind];
    [destruct (JS.truthy_bool (remove then_))|]; reflexivity.
Qed.

(** What the inner loop can do to the index and to the array. *)
Lemma applyCases_effect (rules : list (CaseWhen * CaseAction)) (line : string)
    (i i' : Z) (arr arr' : list string) :
  (0 <= i < Z.of_nat (List.length arr))%Z ->
  CedarDiffServer.applyCases rules line i arr = Ok (i', arr') ->
  firstn (Z.to_nat i) arr' = firstn (Z.to_nat i) arr
  /\ ((i' = i /\ List.length arr' = List.length arr)
      \/ (i' = (i - 1)%Z /\ S (List.length arr') = List.length arr)).
Proof.
  intros Hi. induction rules as [|[w t] rules IH]; cbn [CedarDiffServer.applyCases].
  - intros [= <- <-]. auto.
  - destruct (CedarDiffServer.matchesCondition line w) as [[|]|]; cbn [bind];
      [|exact IH|discriminate].
    destruct (CedarDiffServer.applyAction line t) as [newLine|]; cbn [bind];
      [|discriminate].
    destruct (JS.truthy_bool (remove t)); intros [= <- <-].
    + split.
      * now rewrite firstn_splice1, firstn_set_nth.
      * right. split; [reflexivity|].
        rewrite length_splice1; rewrite length_set_nth; [reflexivity | lia].
    + split.
      * apply firstn_set_nth.
      * left. split; [reflexivity | apply length_set_nth].
Qed.

Lemma compile_throw (source : string) (e : exn) :
  CedarDiffServer.compile source = Throw e -> e = SyntaxError.
Proof.
  unfold CedarDiffServer.compile.
  destruct (new_RegExp source ""); [discriminate | now intros [= <-]].
Qed.

(** A condition only throws what the host's pattern constructor throws. *)
Lemma matchesCondition_throw (line : string) (when : CaseWhen) (e : exn) :
  CedarDiffServer.matchesCondition line when = Throw e -> e = SyntaxError.
Proof.
  unfold CedarDiffServer.matchesCondition.
  destruct (JS.truthy_bool (empty when) && (JS.trim line =? "")%string);
    [discriminate|].
  assert (Htail : forall b : bool,
            (if b then Ok true
             else if JS.guarded (prefix when) (JS.startsWith line) then Ok true
             else if JS.guarded (suffix when) (JS.endsWith line) then Ok true
             else Ok false) <> Throw e).
  { intros b. destruct b; [discriminate|].
    destruct (JS.guarded (prefix when) (JS.startsWith line)); [discriminate|].
    destruct (JS.guarded (suffix when) (JS.endsWith line)); discriminate. }
  destruct (regex when) as [src|]; cbn [bind];
    [|intros H; destruct (Htail false H)].
  destruct (JS.truthy_string (Some src)); cbn [bind];
    [|intros H; destruct (Htail false H)].
  destruct (CedarDiffServer.compile src) as [re|e'] eqn:Hc; cbn [bind].
  - intros H. destruct (Htail _ H).
  - intros [= <-]. eapply compile_throw; eassumption.
Qed.

(** An action throws the pattern constructor's error or the error of a
    string over the host's limit. *)
Lemma applyAction_throw (line : string) (then_ : CaseAction) (e : exn) :
  CedarDiffServer.applyAction line then_ = Throw e ->
  e = SyntaxError \/ e = RangeError.
Proof.
  unfold CedarDiffServer.applyAction.
  destruct (JS.truthy_bool (remove then_)); [discriminate|].
  assert (Hrest :
            match indent then_ with
            | Some delta =>
                blanks <- String_repeat " "
                            (Z.max 0 (Z.of_nat (JS.leading_space line) + delta)) ;;
                String_concat blanks (JS.trimLeft line)
            | None =>
                match content then_ with
                | Some c => if JS.truthy_string (Some c) then Ok c else Ok line
                | None => Ok line
                end
            end = Throw e -> e = SyntaxError \/ e = RangeError).
  { destruct (indent then_) as [delta|].
    - unfold String_repeat, String_concat.
      destruct (_ <? 0)%Z; cbn [bind]; [intros [= <-]; now right|].
      destruct (_ <=? maxStringLength)%Z; cbn [bind];
        [|intros [= <-]; now right].
      destruct (_ <=? maxStringLength)%Z; [discriminate|].
      intros [= <-]. now right.
    - destruct (content then_) as [c|]; [|discriminate].
      destruct (JS.truthy_string (Some c)); discriminate. }
  destruct (subPattern then_) as [pat|], (subRepl then_) as [repl|];
    try exact Hrest.
  destruct (JS.truthy_string (Some pat) && JS.truthy_string (Some repl));
    [|exact Hrest].
  destruct (CedarDiffServer.compile pat) as [re|e'] eqn:Hc; cbn [bind].
  - unfold built. destruct (_ <=? maxStringLength)%Z; [discriminate|].
    intros [= <-]. now right.
  - intros [= <-]. left. eapply compile_throw; eassumption.
Qed.

(** The inner loop throws nothing else. *)
Lemma applyCases_throw (rules : list (CaseWhen * CaseAction)) (line : string)
    (i : Z) (arr : list string) (e : exn) :
  CedarDiffServer.applyCases rules line i arr = Throw e ->
  e = SyntaxError \/ e = RangeError.
Proof.
  induction rules as [|[w t] rules IH]; cbn [CedarDiffServer.applyCases];
    [discriminate|].
  destruct (CedarDiffServer.matchesCondition line w) as [[|]|e'] eqn:Hm;
    cbn [bind]; [| exact IH |].
  - destruct (CedarDiffServer.applyAction line t) as [newLine|e'] eqn:Ha;
      cbn [bind].
    + destruct (JS.truthy_bool (remove t)); discriminate.
    + intros [= <-]. eapply applyAction_throw; eassumption.
  - intros [= <-]. left. eapply matchesCondition_throw; eassumption.
Qed.

(** One iteration from an index inside the array. *)
Lemma iteration_effect (rules : list (CaseWhen * CaseAction)) (i : Z)
    (arr : list string) :
  (0 <= i < Z.of_nat (List.length arr))%Z ->
  match CedarDiffServer.iteration rules i arr with
  | Throw e => e = SyntaxError \/ e = RangeError
  | Ok (i', arr') =>
      firstn (Z.to_nat i) arr' = firstn (Z.to_nat i) arr
      /\ ((i' = (i + 1)%Z /\ List.length arr' = List.length arr)
          \/ (i' = i /\ S (List.length arr') = List.length arr))
  end.
Proof.
  intros Hi. unfold CedarDiffServer.iteration.
  destruct (index_in_range arr i Hi) as [line ->].
  destruct (CedarDiffServer.applyCases rules line i arr) as [[j arr']|e] eqn:Hc;
    cbn [bind fst snd].
  - destruct (applyCases_effect _ _ _ _ _ _ Hi Hc) as [Hpre [[-> Hl]|[-> Hl]]].
    + split; [exact Hpre | left; split; [reflexivity | exact Hl]].
    + split; [exact Hpre | right; split; [lia | exact Hl]].
  - eapply applyCases_throw; eassumption.
Qed.

(** From any index the loop stops within [length - i] iterations. *)
Lemma loop_terminates (fuel : nat) (rules : list (CaseWhen * CaseAction)) :
  forall (i : Z) (arr : list string),
    (0 <= i)%Z -> (Z.of_nat (List.length arr) - i <= Z.of_nat fuel)%Z ->
    exists r, CedarDiffServer.loop fuel rules i arr = Some r.
Proof.
  induction fuel as [|fuel IH]; intros i arr Hlo Hfuel.
  - cbn [CedarDiffServer.loop].
    destruct (Z.ltb_spec i (Z.of_nat (List.length arr))) as [Hlt|Hge]; [lia|].
    eauto.
  - cbn [CedarDiffServer.loop].
    destruct (Z.ltb_spec i (Z.of_nat (List.length arr))) as [Hlt|Hge];
      [|eauto].
    pose proof (iteration_effect rules i arr (conj Hlo Hlt)) as Hstep.
    destruct (CedarDiffServer.iteration rules i arr) as [[i' arr']|e];
      [|eauto].
    destruct Hstep as [_ [[-> Hl]|[-> Hl]]]; apply IH; lia.
Qed.

End LineEngineFacts.

Section LineEngineClaims.
Context {RE : RegExpEngine} {SL : StringLimit}.

(** C7.  The rules [(Prefix("//"), Remove); (Empty, Remove)] turn the lines
    [a], [// comment], the empty line and [b] into [a], [b].  On every line
    the first rule whose condition matches is the only one applied: the
    rules before it do not match and the rules after it are not looked at.
    When that rule removes the line the iteration ends on the same index
    with the line spliced out, so the line that followed is examined
    next. *)
Theorem case_engine_first_match
    (fuel : nat) (rules before after : list (CaseWhen * CaseAction))
    (when : CaseWhen) (then_ : CaseAction) (line : string) (i : Z)
    (arr : list string) :
  4 <= fuel ->
  firstMatch rules line before when then_ after ->
  CedarDiffServer.executeUpdateCommand fuel commentRules commentLines
    = Some (Ok ["a"; "b"])
  /\ CedarDiffServer.applyCases rules line i arr
     = CedarDiffServer.applyCases [(when, then_)] line i arr
  /\ (JS.truthy_bool (remove then_) = true ->
      JS.index arr i = Some line ->
      CedarDiffServer.iteration rules i arr
        = Ok (i, JS.splice1 arr (Z.to_nat i))
      /\ JS.index (JS.splice1 arr (Z.to_nat i)) i = JS.index arr (i + 1)%Z).
Proof.
  intros Hfuel (-> & Hbefore & Hhit).
  assert (Hfirst : CedarDiffServer.applyCases (before ++ (when, then_) :: after)
                     line i arr
                   = CedarDiffServer.applyCases [(when, then_)] line i arr).
  { rewrite applyCases_skip by exact Hbefore. now apply applyCases_hit. }
  split; [|split; [exact Hfirst|]].
  - do 4 (destruct fuel as [|fuel]; [lia|]). destruct fuel; reflexivity.
  - intros Hremove Hline.
    assert (Hi : (0 <= i)%Z).
    { unfold JS.index in Hline.
      destruct (Z.ltb_spec i 0); [discriminate | assumption]. }
    split.
    + unfold CedarDiffServer.iteration. rewrite Hline, Hfirst.
      cbn [CedarDiffServer.applyCases]. rewrite Hhit. cbn [bind].
      unfold CedarDiffServer.applyAction. rewrite Hremove. cbn [bind fst snd].
      rewrite splice1_set_nth. do 2 f_equal. lia.
    + unfold JS.index.
      destruct (Z.ltb_spec i 0); [lia|].
      destruct (Z.ltb_spec (i + 1) 0); [lia|].
      rewrite nth_error_splice1. f_equal. lia.
Qed.

(** C8.  The line rule engine terminates on every line array and every
    CASE statement: with one unit of fuel per line the loop is over.  Each
    iteration from an index inside the array either throws (the pattern
    constructor's [SyntaxError], or the [RangeError] of a line that would
    be longer than the host allows), or moves to the next index with an
    array of the same length, or stays on the index with an array one line
    shorter; the lines before the index are never touched again. *)
Theorem line_engine_terminates
    (caseStatement : CaseStatement) (lines arr : list string) (fuel : nat)
    (i : Z) :
  List.length lines <= fuel ->
  (0 <= i < Z.of_nat (List.length arr))%Z ->
  (exists r,
     CedarDiffServer.executeUpdateCommand fuel caseStatement lines = Some r)
  /\ match CedarDiffServer.iteration (cases caseStatement) i arr with
     | Throw e => e = SyntaxError \/ e = RangeError
     | Ok (i', arr') =>
         firstn (Z.to_nat i) arr' = firstn (Z.to_nat i) arr
         /\ ((i' = (i + 1)%Z /\ List.length arr' = List.length arr)
             \/ (i' = i /\ S (List.length arr') = List.length arr))
     end.
Proof.
  intros Hfuel Hi. split.
  - unfold CedarDiffServer.executeUpdateCommand.
    apply loop_terminates; lia.
  - now apply iteration_effect.
Qed.

End LineEngineClaims.

(** ** Deleting several matches *)

Section DeleteFacts.
Context {RE : RegExpEngine}.

Lemma drop_append_length (n : nat) (a b : string) :
  String.length a = n -> JS.drop n (a ++ b) = b.
Proof. intros <-. apply drop_append_exact. Qed.

(** A text whose offsets below [s] are kept and whose offsets from [s] up
    to [e] are not. *)
Lemma keepIf_cut (keep : nat -> bool) (c : string) :
  forall pos s e,
    s <= e -> e <= String.length c ->
    (forall i, pos <= i < pos + s -> keep i = true) ->
    (forall i, pos + s <= i < pos + e -> keep i = false) ->
    keepIf keep pos c
    = (JS.take s c ++ keepIf keep (pos + e) (JS.drop e c))%string.
Proof.
  induction c as [|ch c IH]; intros pos s e Hse He Hkept Hcut.
  - cbn in He. assert (e = 0) as -> by lia. assert (s = 0) as -> by lia.
    reflexivity.
  - cbn [String.length] in He. destruct e as [|e].
    + assert (s = 0) as -> by lia.
      rewrite Nat.add_0_r, drop_0. reflexivity.
    + destruct s as [|s]; cbn [keepIf JS.take JS.drop].
      * rewrite (Hcut pos) by lia.
        rewrite (IH (S pos) 0 e); try lia.
        -- cbn [JS.take]. rewrite Nat.add_succ_r. now destruct c.
        -- intros i Hi. apply Hcut. lia.
      * rewrite (Hkept pos) by lia.
        rewrite (IH (S pos) s e); try lia.
        -- now rewrite Nat.add_succ_r.
        -- intros i Hi. apply Hkept. lia.
        -- intros i Hi. apply Hcut. lia.
Qed.

(** Predicates that agree from [pos] on keep the same code units. *)
Lemma keepIf_ext (p q : nat -> bool) (c : string) :
  forall pos, (forall i, pos <= i -> p i = q i) ->
              keepIf p pos c = keepIf q pos c.
Proof.
  induction c as [|ch c IH]; intros pos Hpq; [reflexivity|].
  cbn [keepIf]. rewrite (Hpq pos) by lia.
  rewrite (IH (S pos)); [reflexivity|].
  intros i Hi. apply Hpq. lia.
Qed.

Lemma wellPlaced_cons_inv (len : nat) (m : Target) (rest : list Target) :
  wellPlaced len (m :: rest) ->
  startIndex m <= endIndex m /\ endIndex m <= len
  /\ wellPlaced len rest
  /\ (forall i, i < endIndex m -> covered rest i = false).
Proof.
  intros (Hvalid & Hasc & Hover).
  cbn [validSpans forallb] in Hvalid. cbn [ascendingStart] in Hasc.
  cbn [hasOverlap] in Hover.
  apply andb_true_iff in Hvalid as [Hm Hvalid].
  apply andb_true_iff in Hm as [Hse He].
  apply Nat.leb_le in Hse, He.
  apply andb_true_iff in Hasc as [Hfirst Hasc].
  apply orb_false_iff in Hover as [Hm_over Hover].
  repeat split; try assumption.
  intros i Hi.
  destruct (covered rest i) eqn:Hcov; [|reflexivity].
  unfold covered in Hcov. apply existsb_exists in Hcov as (m' & Hin & Hm').
  apply andb_true_iff in Hm' as [Hlo Hhi].
  apply Nat.leb_le in Hlo. apply Nat.ltb_lt in Hhi.
  rewrite forallb_forall in Hfirst. specialize (Hfirst m' Hin).
  apply Nat.leb_le in Hfirst.
  assert (Hyes : existsb (overlaps m) rest = true).
  { apply existsb_exists. exists m'. split; [exact Hin|].
    unfold overlaps. apply andb_true_iff.
    split; apply Nat.ltb_lt; lia. }
  congruence.
Qed.

Lemma wellPlaced_suffix (len : nat) (before after : list Target) :
  wellPlaced len (before ++ after) -> wellPlaced len after.
Proof.
  induction before as [|m before IH]; [trivial|].
  intros H. apply IH. now apply wellPlaced_cons_inv in H.
Qed.

(** Cutting the first match out of a text from which the later ones are
    already cut: the text up to the end of the match was still the
    original one. *)
Lemma delete_step (c : string) (m : Target) (rest : list Target) :
  wellPlaced (String.length c) (m :: rest) ->
  exists tail,
    undeleted rest c = (JS.take (endIndex m) c ++ tail)%string
    /\ undeleted (m :: rest) c = (JS.take (startIndex m) c ++ tail)%string
    /\ DeleteCommand.deleteContent (undeleted rest c)
         (startIndex m) (endIndex m)
       = (JS.take (startIndex m) c ++ tail)%string.
Proof.
  intros H. apply wellPlaced_cons_inv in H as (Hse & He & _ & Hfree).
  set (s := startIndex m) in *. set (e := endIndex m) in *.
  set (keepRest := fun i => negb (covered rest i)).
  exists (keepIf keepRest e (JS.drop e c)).
  assert (Hrest : undeleted rest c
                  = (JS.take e c ++ keepIf keepRest e (JS.drop e c))%string).
  { unfold undeleted. fold keepRest.
    apply (keepIf_cut keepRest c 0 e e); try lia.
    intros i Hi. unfold keepRest. rewrite Hfree by lia. reflexivity. }
  split; [exact Hrest|split].
  - unfold undeleted.
    rewrite (keepIf_cut _ c 0 s e); [|lia|lia| |].
    + f_equal. apply keepIf_ext. intros i Hi.
      unfold keepRest. cbn [covered existsb]. fold s e.
      destruct (Nat.ltb_spec i e) as [Hlt|_]; [lia|].
      now rewrite andb_false_r.
    + intros i Hi. cbn [covered existsb]. fold s e.
      destruct (Nat.leb_spec s i) as [Hle|_]; [lia|].
      cbn [andb orb]. change (existsb _ rest) with (covered rest i).
      rewrite Hfree by lia. reflexivity.
    + intros i Hi. cbn [covered existsb]. fold s e.
      destruct (Nat.leb_spec s i) as [_|Hgt]; [|lia].
      destruct (Nat.ltb_spec i e) as [_|Hge]; [|lia].
      reflexivity.
  - rewrite Hrest, deleteContent_spec.
    rewrite take_append_le by (rewrite length_take; lia).
    rewrite take_take by lia.
    rewrite drop_append_length by (rewrite length_take; lia).
    reflexivity.
Qed.

(** DELETE on a well placed match set leaves exactly the text outside the
    matches. *)
Lemma delete_applyTargets_undeleted (c : string) (ms : list Target) :
  wellPlaced (String.length c) ms ->
  DeleteCommand.applyTargets ms c = undeleted ms c
  /\ String.length (undeleted ms c) = String.length c - sumMatchLengths ms.
Proof.
  induction ms as [|m rest IH]; intros H.
  - split.
    + unfold undeleted. cbn [covered existsb negb].
      rewrite (keepIf_cut _ c 0 (String.length c) (String.length c));
        [|lia|lia| |].
      * rewrite drop_all, take_all by lia. cbn. now rewrite append_empty_r.
      * reflexivity.
      * intros i Hi. lia.
    + unfold undeleted, sumMatchLengths. cbn [covered existsb negb map list_sum].
      rewrite (keepIf_cut _ c 0 (String.length c) (String.length c));
        [|lia|lia| |].
      * rewrite drop_all, take_all by lia. cbn.
        rewrite append_empty_r. lia.
      * reflexivity.
      * intros i Hi. lia.
  - pose proof (wellPlaced_cons_inv _ _ _ H) as (Hse & He & Hrest & _).
    destruct (IH Hrest) as [IHeq IHlen].
    destruct (delete_step c m rest H) as (tail & Hcut & Hnew & Hdel).
    split.
    + rewrite delete_applyTargets_cons, IHeq, Hdel, Hnew. reflexivity.
    + rewrite Hnew. rewrite Hcut in IHlen.
      rewrite length_append, length_take in *.
      unfold sumMatchLengths in *. cbn [map].
      change (list_sum (matchLength m :: map matchLength rest))
        with (matchLength m + list_sum (map matchLength rest)).
      unfold matchLength at 1.
      lia.
Qed.

(** C4.  When the target of a DELETE resolves to matches in ascending order
    of start, no two of which overlap, the command returns a text whose
    length is [len(c)] minus the sum of the match lengths; that text is
    made of the code units of [c] outside the matches, in their original
    order; and when the loop, going from the last match to the first, comes
    to a match, the text at the offsets of that match is still the text [c]
    has there. *)
Theorem delete_non_overlapping
    (node targetNode : SyntaxNode.t) (c : string) (tree : Tree)
    (ms : list Target) :
  SyntaxNode.child node 0 = Some targetNode ->
  Resolver.findTargets tree targetNode (SyntaxNode.child node 1) = Ok ms ->
  validSpans (String.length c) ms = true ->
  ascendingStart ms = true ->
  hasOverlap ms = false ->
  exists out,
    DeleteCommand.execute node c tree = Ok out
    /\ String.length out = String.length c - sumMatchLengths ms
    /\ out = undeleted ms c
    /\ (forall before m after,
          ms = before ++ m :: after ->
          JS.substring (DeleteCommand.applyTargets after c)
            (startIndex m) (endIndex m)
          = JS.substring c (startIndex m) (endIndex m)).
Proof.
  intros Htarget Hfound Hvalid Hasc Hover.
  assert (Hwp : wellPlaced (String.length c) ms) by (repeat split; assumption).
  destruct (delete_applyTargets_undeleted c ms Hwp) as [Heq Hlen].
  exists (undeleted ms c). repeat split.
  - unfold DeleteCommand.execute. rewrite Htarget, Hfound. cbn [bind].
    now rewrite Heq.
  - exact Hlen.
  - intros before m after ->.
    apply wellPlaced_suffix in Hwp.
    pose proof (wellPlaced_cons_inv _ _ _ Hwp) as (Hse & He & Hafter & _).
    destruct (delete_applyTargets_undeleted c after Hafter) as [-> _].
    destruct (delete_step c m after Hwp) as (tail & -> & _ & _).
    rewrite !substring_span;
      try assumption;
      try (rewrite length_append, length_take; lia).
    rewrite drop_append_le by (rewrite length_take; lia).
    rewrite take_append_le by (rewrite length_drop, length_take; lia).
    rewrite drop_take. apply take_take. lia.
Qed.

End DeleteFacts.

(** ** The commands on concrete inputs *)

(** C1: the nested calls of [foo(bar(x));] resolve to the overlapping matches
    [0 .. 11] and [4 .. 10].  The commands do not reject them: the reversed
    loop, meant to keep the offsets of the remaining matches valid, applies
    the outer match at offsets the inner edit has already moved.  UPDATE
    returns [Z] and DELETE the empty text, both without the final
    semicolon, which no match covers. *)
Lemma overlapping_targets_counterexample :
  Resolver.findTargets nestedTree (leaf "identifier" "call" 0 0)
    (Some (condition "type" "=" "call"))
  = Ok [mkTarget 0 11; mkTarget 4 10]
  /\ hasOverlap [mkTarget 0 11; mkTarget 4 10] = true
  /\ UpdateCommand.execute
       (updateCommand "call" (condition "type" "=" "call") "'Z'")
       nestedSource nestedTree
     = Ok "Z"
  /\ DeleteCommand.execute (deleteCommand "call") nestedSource nestedTree
     = Ok "".
Proof. repeat split; reflexivity. Qed.

(** The matches [2 .. 8] and [5 .. 10] of the specification's example, on a
    tree whose nodes have these spans: both commands return a text. *)
Example crossing_spans_applied :
  Resolver.findTargets crossingTree (leaf "identifier" "item" 0 0) None
  = Ok [mkTarget 2 8; mkTarget 5 10]
  /\ UpdateCommand.execute
       (updateCommand "item" (condition "type" "=" "item") "'Z'")
       crossingSource crossingTree
     = Ok "01Z"
  /\ DeleteCommand.execute (deleteCommand "item") crossingSource crossingTree
     = Ok "01".
Proof. repeat split; reflexivity. Qed.

(** C2: a condition on the field [name] lets every match through, and the
    commands go on to edit all of them. *)
Lemma unknown_field_counterexample :
  conditionField (condition "name" "=" "'zzz'") = "name"
  /\ Resolver.filterTargetsByCondition
       [mkTarget 0 1; mkTarget 4 5; mkTarget 8 9]
       (condition "name" "=" "'zzz'") flatTree
     = [mkTarget 0 1; mkTarget 4 5; mkTarget 8 9]
  /\ UpdateCommand.execute
       (updateCommand "name" (condition "name" "=" "'zzz'") "'XY'")
       flatSource flatTree
     = Ok "XY = XY + XY"
  /\ DeleteCommand.execute
       (deleteCommandWhere "name" (condition "name" "=" "'zzz'"))
       flatSource flatTree
     = Ok " =  + ".
Proof. repeat split; reflexivity. Qed.

Lemma unknown_field_keeps_all_witness :
  conditionField (condition "name" "=" "'zzz'") <> "type"
  /\ conditionField (condition "name" "=" "'zzz'") <> "text"
  /\ Resolver.filterTargetsByCondition
       [mkTarget 0 1; mkTarget 4 5; mkTarget 8 9]
       (condition "name" "=" "'zzz'") flatTree
     = [mkTarget 0 1; mkTarget 4 5; mkTarget 8 9].
Proof.
  split; [discriminate|]. split; [discriminate|].
  apply (unknown_field_keeps_all
           [mkTarget 0 1; mkTarget 4 5; mkTarget 8 9]
           (condition "name" "=" "'zzz'") flatTree);
    discriminate.
Defined.

Lemma update_single_match_witness :
  Resolver.findTargets flatTree (leaf "identifier" "name" 0 0)
    (Some (condition "text" "=" "'b'"))
  = Ok [mkTarget 4 5]
  /\ exists out,
       UpdateCommand.execute
         (updateCommand "name" (condition "text" "=" "'b'") "'XY'")
         flatSource flatTree
       = Ok out
       /\ out = (JS.take 4 flatSource ++ "XY" ++ JS.drop 5 flatSource)%string
       /\ (forall i, i < 4 -> String.get i out = String.get i flatSource)
       /\ (forall j, 5 <= j ->
             String.get (4 + String.length "XY" + (j - 5)) out
             = String.get j flatSource).
Proof.
  split; [reflexivity|].
  apply (update_single_match
           (updateCommand "name" (condition "text" "=" "'b'") "'XY'")
           (leaf "identifier" "name" 0 0) (leaf "string" "'XY'" 0 0)
           flatSource flatTree 4 5);
    try reflexivity; cbn; lia.
Defined.

Lemma delete_non_overlapping_witness :
  Resolver.findTargets flatTree (leaf "identifier" "name" 0 0) None
  = Ok [mkTarget 0 1; mkTarget 4 5; mkTarget 8 9]
  /\ exists out,
       DeleteCommand.execute (deleteCommand "name") flatSource flatTree = Ok out
       /\ String.length out
          = String.length flatSource
            - sumMatchLengths [mkTarget 0 1; mkTarget 4 5; mkTarget 8 9]
       /\ out = undeleted [mkTarget 0 1; mkTarget 4 5; mkTarget 8 9] flatSource
       /\ (forall before m after,
             [mkTarget 0 1; mkTarget 4 5; mkTarget 8 9] = before ++ m :: after ->
             JS.substring (DeleteCommand.applyTargets after flatSource)
               (startIndex m) (endIndex m)
             = JS.substring flatSource (startIndex m) (endIndex m)).
Proof.
  split; [reflexivity|].
  apply (delete_non_overlapping
           (deleteCommand "name") (leaf "identifier" "name" 0 0)
           flatSource flatTree [mkTarget 0 1; mkTarget 4 5; mkTarget 8 9]);
    reflexivity.
Defined.

Lemma insert_start_end_witness :
  InsertCommand.execute (insertCommand "start" "'<'") flatSource flatTree
  = Ok "<a = b + c"
  /\ InsertCommand.execute (insertCommand "end" "'>'") flatSource nestedTree
     = Ok "a = b + c>"
  /\ (mid <- InsertCommand.execute (insertCommand "start" "'<'")
               flatSource flatTree ;;
      InsertCommand.execute (insertCommand "end" "'>'") mid nestedTree)
     = Ok "<a = b + c>"
  /\ ("<" = "" ->
      InsertCommand.execute (insertCommand "start" "'<'") flatSource flatTree
      = Ok flatSource).
Proof.
  apply (insert_start_end
           (insertCommand "start" "'<'") (insertCommand "end" "'>'")
           (leaf "position" "start" 0 0) (leaf "string" "'<'" 0 0)
           (leaf "position" "end" 0 0) (leaf "string" "'>'" 0 0)
           flatSource flatTree nestedTree);
    reflexivity.
Defined.

(** Inserting the empty text at [start] on a concrete content. *)
Example insert_empty_at_start :
  InsertCommand.execute (insertCommand "start" "''") flatSource flatTree
  = Ok flatSource.
Proof. reflexivity. Qed.

Lemma select_without_target_witness :
  SyntaxNode.child selectCommand 0 = None
  /\ SelectCommand.execute selectCommand flatSource flatTree = Ok flatSource.
Proof.
  split; [reflexivity|].
  apply (select_without_target selectCommand flatSource flatTree).
  reflexivity.
Defined.

Lemma unlocatable_match_excluded_witness :
  hasNodeWithSpan flatTree 1 2 = false
  /\ Resolver.filterTargetsByCondition
       ([mkTarget 0 1] ++ mkTarget 1 2 :: [mkTarget 4 5])
       (condition "type" "=" "name") flatTree
     = Resolver.filterTargetsByCondition [mkTarget 0 1]
         (condition "type" "=" "name") flatTree
       ++ Resolver.filterTargetsByCondition [mkTarget 4 5]
            (condition "type" "=" "name") flatTree
  /\ ~ In (mkTarget 1 2)
         (Resolver.filterTargetsByCondition
            ([mkTarget 0 1] ++ mkTarget 1 2 :: [mkTarget 4 5])
            (condition "type" "=" "name") flatTree).
Proof.
  split; [reflexivity|].
  apply (unlocatable_match_excluded
           [mkTarget 0 1] [mkTarget 4 5] (mkTarget 1 2)
           (condition "type" "=" "name") flatTree);
    [reflexivity | left; reflexivity].
Defined.

Lemma case_engine_first_match_witness :
  firstMatch (cases commentRules) ""
    [removeRule (whenPrefix "//")] whenEmpty (snd (removeRule whenEmpty)) []
  /\ CedarDiffServer.executeUpdateCommand 4 commentRules commentLines
     = Some (Ok ["a"; "b"])
  /\ CedarDiffServer.applyCases (cases commentRules) "" 1 ["a"; ""; "b"]
     = CedarDiffServer.applyCases [removeRule whenEmpty] "" 1 ["a"; ""; "b"]
  /\ (JS.truthy_bool (remove (snd (removeRule whenEmpty))) = true ->
      JS.index ["a"; ""; "b"] 1 = Some "" ->
      CedarDiffServer.iteration (cases commentRules) 1 ["a"; ""; "b"]
      = Ok (1%Z, JS.splice1 ["a"; ""; "b"] (Z.to_nat 1))
      /\ JS.index (JS.splice1 ["a"; ""; "b"] (Z.to_nat 1)) 1
         = JS.index ["a"; ""; "b"] (1 + 1)%Z).
Proof.
  assert (Hfirst : firstMatch (cases commentRules) ""
                     [removeRule (whenPrefix "//")] whenEmpty
                     (snd (removeRule whenEmpty)) []).
  { split; [reflexivity|]. split; [|reflexivity].
    constructor; [reflexivity | constructor]. }
  split; [exact Hfirst|].
  apply (case_engine_first_match 4 (cases commentRules)
           [removeRule (whenPrefix "//")] [] whenEmpty
           (snd (removeRule whenEmpty)) "" 1 ["a"; ""; "b"]);
    [lia | exact Hfirst].
Defined.

Lemma line_engine_terminates_witness :
  (exists r,
     CedarDiffServer.executeUpdateCommand 4 commentRules commentLines = Some r)
  /\ match CedarDiffServer.iteration (cases commentRules) 1 commentLines with
     | Throw e => e = SyntaxError \/ e = RangeError
     | Ok (i', arr') =>
         firstn (Z.to_nat 1) arr' = firstn (Z.to_nat 1) commentLines
         /\ ((i' = (1 + 1)%Z /\ List.length arr' = List.length commentLines)
             \/ (i' = 1%Z /\ S (List.length arr') = List.length commentLines))
     end.
Proof.
  apply (line_engine_terminates commentRules commentLines commentLines 4 1);
    cbn; lia.
Defined.

(** ** What target resolution returns *)

Section ResolverOutput.
Context {RE : RegExpEngine}.

Lemma findNodesWithType_preorder (type : string) (node : SyntaxNode.t) :
  forall targets,
    Resolver.findNodesWithType node type targets
    = targets
      ++ map spanOf
           (filter (fun n => String.eqb (SyntaxNode.type n) type)
              (SyntaxNode.subtree node)).
Proof.
  induction node as [ty tx s e cs IH] using SyntaxNode_Forall_ind.
  intros targets.
  cbn [Resolver.findNodesWithType SyntaxNode.subtree filter SyntaxNode.type].
  assert (Hfold : forall acc,
            fold_left (fun acc child => Resolver.findNodesWithType child type acc)
              cs acc
            = acc ++ map spanOf
                       (filter (fun n => String.eqb (SyntaxNode.type n) type)
                          (flat_map SyntaxNode.subtree cs))).
  { induction IH as [|c cs Hc _ IHcs]; intros acc; cbn [fold_left flat_map].
    - now rewrite app_nil_r.
    - rewrite Hc, IHcs, filter_app, map_app, app_assoc. reflexivity. }
  rewrite Hfold.
  destruct (String.eqb ty type); [|reflexivity].
  cbn [map]. now rewrite <- app_assoc.
Qed.

Lemma findNodesWithText_preorder (text : string) (node : SyntaxNode.t) :
  forall targets,
    Resolver.findNodesWithText node text targets
    = targets
      ++ map spanOf
           (filter (fun n => String.eqb (SyntaxNode.text n) text)
              (SyntaxNode.subtree node)).
Proof.
  induction node as [ty tx s e cs IH] using SyntaxNode_Forall_ind.
  intros targets.
  cbn [Resolver.findNodesWithText SyntaxNode.subtree filter SyntaxNode.text].
  assert (Hfold : forall acc,
            fold_left (fun acc child => Resolver.findNodesWithText child text acc)
              cs acc
            = acc ++ map spanOf
                       (filter (fun n => String.eqb (SyntaxNode.text n) text)
                          (flat_map SyntaxNode.subtree cs))).
  { induction IH as [|c cs Hc _ IHcs]; intros acc; cbn [fold_left flat_map].
    - now rewrite app_nil_r.
    - rewrite Hc, IHcs, filter_app, map_app, app_assoc. reflexivity. }
  rewrite Hfold.
  destruct (String.eqb tx text); [|reflexivity].
  cbn [map]. now rewrite <- app_assoc.
Qed.

(** A pattern object that [test] leaves as it is: no global or sticky
    flag moves its [lastIndex]. *)
Lemma findNodesMatchingRegex_preorder (pattern : RegExp)
    (node : SyntaxNode.t) :
  (forall s, snd (RegExp_test pattern s) = pattern) ->
  forall targets,
    Resolver.findNodesMatchingRegex node (pattern, targets)
    = (pattern,
       targets
       ++ map spanOf
            (filter (fun n => fst (RegExp_test pattern (SyntaxNode.text n)))
               (SyntaxNode.subtree node))).
Proof.
  intros Hsame.
  induction node as [ty tx s e cs IH] using SyntaxNode_Forall_ind.
  intros targets.
  cbn [Resolver.findNodesMatchingRegex SyntaxNode.subtree filter SyntaxNode.text].
  assert (Hfold : forall acc,
            fold_left (fun acc child => Resolver.findNodesMatchingRegex child acc)
              cs (pattern, acc)
            = (pattern,
               acc ++ map spanOf
                        (filter
                           (fun n => fst (RegExp_test pattern (SyntaxNode.text n)))
                           (flat_map SyntaxNode.subtree cs)))).
  { induction IH as [|c cs Hc _ IHcs]; intros acc; cbn [fold_left flat_map].
    - now rewrite app_nil_r.
    - rewrite Hc, IHcs, filter_app, map_app, app_assoc. reflexivity. }
  specialize (Hsame tx).
  destruct (RegExp_test pattern tx) as [hit pattern'].
  cbn [snd fst] in *. subst pattern'. rewrite Hfold.
  destruct hit; [|reflexivity].
  cbn [map]. now rewrite <- app_assoc.
Qed.

(** Whatever [test] does to the pattern object, the traversal only adds
    spans of nodes it visits. *)
Lemma findNodesMatchingRegex_spans (node : SyntaxNode.t) :
  forall (st : RegExp * list Target) (t : Target),
    In t (snd (Resolver.findNodesMatchingRegex node st)) ->
    In t (snd st)
    \/ exists n, In n (SyntaxNode.subtree node) /\ spanOf n = t.
Proof.
  induction node as [ty tx s e cs IH] using SyntaxNode_Forall_ind.
  intros [pattern targets] t.
  cbn [Resolver.findNodesMatchingRegex SyntaxNode.subtree snd].
  destruct (RegExp_test pattern tx) as [hit pattern'].
  assert (Hfold : forall st,
            In t (snd (fold_left
                         (fun acc child => Resolver.findNodesMatchingRegex child acc)
                         cs st)) ->
            In t (snd st)
            \/ exists n, In n (flat_map SyntaxNode.subtree cs) /\ spanOf n = t).
  { clear targets. induction IH as [|c cs Hc _ IHcs]; intros st Hin;
      cbn [fold_left flat_map] in *; [now left|].
    destruct (IHcs _ Hin) as [Hold | (n & Hn & Hspan)].
    - destruct (Hc _ _ Hold) as [Hst | (n & Hn & Hspan)]; [now left|].
      right. exists n. split; [apply in_or_app; now left | exact Hspan].
    - right. exists n. split; [apply in_or_app; now right | exact Hspan]. }
  intros Hin. destruct (Hfold _ Hin) as [Hold | (n & Hn & Hspan)].
  - cbn [snd] in Hold. destruct hit; [|now left].
    apply in_app_or in Hold as [Hold | [<- | []]]; [now left|].
    right. exists (SyntaxNode.mk ty tx s e cs). split; [now left | reflexivity].
  - right. exists n. split; [now right | exact Hspan].
Qed.

Lemma hasNodeWithSpan_spanOf (tree : Tree) (n : SyntaxNode.t) :
  In n (SyntaxNode.subtree (rootNode tree)) ->
  hasNodeWithSpan tree (startIndex (spanOf n)) (endIndex (spanOf n)) = true.
Proof.
  intros Hin. apply existsb_exists. exists n. split; [exact Hin|].
  cbn. now rewrite !Nat.eqb_refl.
Qed.

(** X1.  An [identifier] target without condition resolves to the spans of
    the nodes whose type is the target's text, in pre-order over the whole
    tree. *)
Theorem findTargets_identifier (tree : Tree) (targetNode : SyntaxNode.t) :
  SyntaxNode.type targetNode = "identifier" ->
  Resolver.findTargets tree targetNode None
  = Ok (map spanOf
          (filter
             (fun n => String.eqb (SyntaxNode.type n) (SyntaxNode.text targetNode))
             (SyntaxNode.subtree (rootNode tree)))).
Proof.
  intros Hty. unfold Resolver.findTargets.
  rewrite Hty, String.eqb_refl. cbn [bind].
  rewrite findNodesWithType_preorder. reflexivity.
Qed.

(** X2.  A [string] target without condition resolves to the spans of the
    nodes whose whole text is the target's text without its quotes, in
    pre-order. *)
Theorem findTargets_string (tree : Tree) (targetNode : SyntaxNode.t) :
  SyntaxNode.type targetNode = "string" ->
  Resolver.findTargets tree targetNode None
  = Ok (map spanOf
          (filter
             (fun n =>
                String.eqb (SyntaxNode.text n)
                  (JS.strip_quotes (SyntaxNode.text targetNode)))
             (SyntaxNode.subtree (rootNode tree)))).
Proof.
  intros Hty. unfold Resolver.findTargets. rewrite Hty.
  change (String.eqb "string" "identifier") with false.
  rewrite String.eqb_refl. cbn [bind].
  rewrite findNodesWithText_preorder. reflexivity.
Qed.

(** X3.  A [regex_pattern] target whose pattern object is not changed by
    [test] resolves to the spans of the nodes whose text passes the test,
    in pre-order. *)
Theorem findTargets_regex (tree : Tree) (targetNode : SyntaxNode.t)
    (pattern : RegExp) :
  SyntaxNode.type targetNode = "regex_pattern" ->
  Resolver.extractRegexPattern targetNode = Ok pattern ->
  (forall s, snd (RegExp_test pattern s) = pattern) ->
  Resolver.findTargets tree targetNode None
  = Ok (map spanOf
          (filter (fun n => fst (RegExp_test pattern (SyntaxNode.text n)))
             (SyntaxNode.subtree (rootNode tree)))).
Proof.
  intros Hty Hpat Hsame. unfold Resolver.findTargets.
  rewrite Hty, Hpat. cbn [String.eqb bind].
  now rewrite findNodesMatchingRegex_preorder.
Qed.

(** A match of a resolved match set comes from a node of the tree. *)
Lemma findTargets_from_nodes (tree : Tree) (targetNode : SyntaxNode.t)
    (conditionNode : option SyntaxNode.t) (ms : list Target) (m : Target) :
  Resolver.findTargets tree targetNode conditionNode = Ok ms ->
  In m ms ->
  exists n, In n (SyntaxNode.subtree (rootNode tree)) /\ spanOf n = m.
Proof.
  intros Hfound Hin.
  assert (Hraw : forall raw,
            (forall t, In t raw ->
                       exists n, In n (SyntaxNode.subtree (rootNode tree))
                                 /\ spanOf n = t) ->
            (match conditionNode with
             | Some c => Ok (Resolver.filterTargetsByCondition raw c tree)
             | None => Ok raw
             end) = Ok ms ->
            exists n, In n (SyntaxNode.subtree (rootNode tree)) /\ spanOf n = m).
  { intros raw Hspans Hms.
    assert (Hm : In m raw).
    { destruct conditionNode as [c|]; injection Hms as <-; [|exact Hin].
      unfold Resolver.filterTargetsByCondition in Hin.
      destruct (Resolver.parseCondition c) as [[f o] v].
      now apply filter_In in Hin. }
    exact (Hspans _ Hm). }
  assert (Hmap : forall p t,
            In t (map spanOf (filter p (SyntaxNode.subtree (rootNode tree)))) ->
            exists n, In n (SyntaxNode.subtree (rootNode tree)) /\ spanOf n = t).
  { intros p t Ht. apply in_map_iff in Ht as (n & Hspan & Hn).
    apply filter_In in Hn as [Hn _]. now exists n. }
  unfold Resolver.findTargets in Hfound.
  destruct (String.eqb (SyntaxNode.type targetNode) "identifier").
  { cbn [bind] in Hfound. eapply Hraw; [|exact Hfound].
    rewrite findNodesWithType_preorder. apply Hmap. }
  destruct (String.eqb (SyntaxNode.type targetNode) "string").
  { cbn [bind] in Hfound. eapply Hraw; [|exact Hfound].
    rewrite findNodesWithText_preorder. apply Hmap. }
  destruct (String.eqb (SyntaxNode.type targetNode) "regex_pattern").
  - destruct (Resolver.extractRegexPattern targetNode) as [pattern|];
      cbn [bind] in Hfound; [|discriminate].
    eapply Hraw; [|exact Hfound].
    intros t Ht. apply findNodesMatchingRegex_spans in Ht as [[]|Ht].
    exact Ht.
  - cbn [bind] in Hfound. eapply Hraw; [|exact Hfound]. intros t [].
Qed.

(** X4.  Every match of a resolved match set, for any kind of target and
    with or without a condition, is the exact span of a node of the
    tree. *)
Theorem findTargets_node_spans (tree : Tree) (targetNode : SyntaxNode.t)
    (conditionNode : option SyntaxNode.t) (ms : list Target) (m : Target) :
  Resolver.findTargets tree targetNode conditionNode = Ok ms ->
  In m ms ->
  hasNodeWithSpan tree (startIndex m) (endIndex m) = true.
Proof.
  intros Hfound Hin.
  destruct (findTargets_from_nodes _ _ _ _ _ Hfound Hin) as (n & Hn & <-).
  now apply hasNodeWithSpan_spanOf.
Qed.

End ResolverOutput.

(** ** Looking a match up again *)

Section LookupFacts.
Context {RE : RegExpEngine}.

Lemma find_app_first {A : Type} (p : A -> bool) (xs ys : list A) :
  find p (xs ++ ys)
  = match find p xs with
    | Some x => Some x
    | None => find p ys
    end.
Proof.
  induction xs as [|x xs IH]; [reflexivity|].
  cbn [app find]. destruct (p x); [reflexivity | exact IH].
Qed.

(** In a well nested tree the span of a node contains the span of each of
    its descendants. *)
Lemma wellNested_contains (node : SyntaxNode.t) :
  wellNested node = true ->
  forall n, In n (SyntaxNode.subtree node) ->
            SyntaxNode.startIndex node <= SyntaxNode.startIndex n
            /\ SyntaxNode.endIndex n <= SyntaxNode.endIndex node.
Proof.
  induction node as [ty tx s e cs IH] using SyntaxNode_Forall_ind.
  cbn [wellNested SyntaxNode.subtree]. intros Hwn n [<- | Hin];
    [cbn; lia|].
  cbn [SyntaxNode.startIndex SyntaxNode.endIndex].
  induction IH as [|c cs Hc _ IHcs]; [contradiction|].
  cbn [forallb flat_map] in Hwn, Hin.
  apply andb_true_iff in Hwn as [Hhead Hrest].
  apply andb_true_iff in Hhead as [Hspan Hc_wn].
  apply andb_true_iff in Hspan as [Hlo Hhi].
  apply Nat.leb_le in Hlo, Hhi.
  apply in_app_or in Hin as [Hin | Hin].
  - destruct (Hc Hc_wn n Hin). lia.
  - now apply IHcs.
Qed.

Lemma findNodeAtPosition_find (root : SyntaxNode.t) (s e : nat) :
  wellNested root = true ->
  Resolver.findNodeAtPosition root s e
  = find (hasSpan s e) (SyntaxNode.subtree root).
Proof.
  induction root as [ty tx ns ne cs IH] using SyntaxNode_Forall_ind.
  intros Hwn.
  cbn [Resolver.findNodeAtPosition SyntaxNode.subtree find].
  unfold hasSpan at 1. cbn [SyntaxNode.startIndex SyntaxNode.endIndex].
  destruct ((ns =? s)%nat && (ne =? e)%nat); [reflexivity|].
  cbn [wellNested] in Hwn.
  induction IH as [|c cs Hc _ IHcs]; [reflexivity|].
  cbn [forallb] in Hwn.
  apply andb_true_iff in Hwn as [Hhead Hrest].
  apply andb_true_iff in Hhead as [_ Hc_wn].
  cbn [flat_map]. rewrite find_app_first, <- (Hc Hc_wn).
  destruct ((SyntaxNode.startIndex c <=? s)%nat
            && (e <=? SyntaxNode.endIndex c)%nat) eqn:Hinside.
  - destruct (Resolver.findNodeAtPosition c s e); [reflexivity|].
    now apply IHcs.
  - rewrite (Hc Hc_wn).
    destruct (find (hasSpan s e) (SyntaxNode.subtree c)) as [n|] eqn:Hfind.
    + exfalso. apply find_some in Hfind as [Hin Hspan].
      unfold hasSpan in Hspan. apply andb_true_iff in Hspan as [Hs He].
      apply Nat.eqb_eq in Hs, He.
      destruct (wellNested_contains c Hc_wn n Hin) as [Hlo Hhi].
      apply andb_false_iff in Hinside as [H | H];
        apply Nat.leb_gt in H; lia.
    + now apply IHcs.
Qed.

(** X5.  In a tree whose nodes contain their children, the lookup of a
    span returns the first node in pre-order that has exactly this span
    (the outermost one when a node and its descendant share a span), and
    [null] only when no node has it. *)
Theorem findNodeAtPosition_first_in_preorder (tree : Tree) (s e : nat) :
  wellNested (rootNode tree) = true ->
  Resolver.findNodeAtPosition (rootNode tree) s e
  = find (hasSpan s e) (SyntaxNode.subtree (rootNode tree))
  /\ (Resolver.findNodeAtPosition (rootNode tree) s e = None
      <-> hasNodeWithSpan tree s e = false).
Proof.
  intros Hwn. rewrite (findNodeAtPosition_find _ s e Hwn).
  split; [reflexivity|]. unfold hasNodeWithSpan. split; intros H.
  - destruct (existsb _ _) eqn:Hex; [|reflexivity].
    apply existsb_exists in Hex as (n & Hn & Hp).
    pose proof (find_none _ _ H n Hn) as Hno. unfold hasSpan in Hno.
    congruence.
  - destruct (find _ _) as [n|] eqn:Hfind; [|reflexivity].
    apply find_some in Hfind as [Hn Hp].
    assert (Hex : existsb
              (fun n => (SyntaxNode.startIndex n =? s)%nat
                        && (SyntaxNode.endIndex n =? e)%nat)
              (SyntaxNode.subtree (rootNode tree)) = true)
      by (apply existsb_exists; now exists n).
    congruence.
Qed.

(** X6.  In such a tree every match that target resolution returns is
    found again by the lookup of the condition filter, at a node with the
    very span of the match: the filter never meets [null] there. *)
Theorem resolved_matches_are_located
    (tree : Tree) (targetNode : SyntaxNode.t)
    (conditionNode : option SyntaxNode.t) (ms : list Target) (m : Target) :
  wellNested (rootNode tree) = true ->
  Resolver.findTargets tree targetNode conditionNode = Ok ms ->
  In m ms ->
  exists n,
    Resolver.findNodeAtPosition (rootNode tree) (startIndex m) (endIndex m)
    = Some n
    /\ spanOf n = m.
Proof.
  intros Hwn Hfound Hin.
  destruct (findTargets_from_nodes _ _ _ _ _ Hfound Hin) as (n0 & Hn0 & Hspan).
  rewrite findNodeAtPosition_find by exact Hwn.
  assert (Hp : hasSpan (startIndex m) (endIndex m) n0 = true).
  { subst m. unfold hasSpan. cbn. now rewrite !Nat.eqb_refl. }
  destruct (find (hasSpan (startIndex m) (endIndex m))
              (SyntaxNode.subtree (rootNode tree))) as [n|] eqn:Hfind.
  - exists n. split; [reflexivity|].
    apply find_some in Hfind as [_ Hn]. unfold hasSpan in Hn.
    apply andb_true_iff in Hn as [Hs He]. apply Nat.eqb_eq in Hs, He.
    destruct m as [ms' me']. unfold spanOf. cbn in *. now subst.
  - exfalso. pose proof (find_none _ _ Hfind n0 Hn0) as Hno.
    congruence.
Qed.

End LookupFacts.

(** ** Replacing several matches *)

Section UpdateFacts.
Context {RE : RegExpEngine}.

Lemma take_split (p s : nat) (c : string) :
  p <= s ->
  JS.take s c = (JS.take p c ++ JS.take (s - p) (JS.drop p c))%string.
Proof.
  revert s c; induction p as [|p IH]; intros s c Hps.
  - now rewrite drop_0, Nat.sub_0_r.
  - destruct s as [|s]; [lia|]. destruct c as [|ch c].
    + cbn. now destruct (s - p).
    + cbn [JS.take JS.drop Nat.sub append]. rewrite (IH s c) by lia.
      reflexivity.
Qed.

Lemma chainedFrom_le (ms : list Target) :
  forall pos len, chainedFrom pos len ms = true -> pos <= len.
Proof.
  induction ms as [|m ms IH]; intros pos len H; cbn [chainedFrom] in H.
  - now apply Nat.leb_le.
  - apply andb_true_iff in H as [H Hrest].
    apply andb_true_iff in H as [Hps Hse].
    apply Nat.leb_le in Hps, Hse. apply IH in Hrest. lia.
Qed.

(** The reversed loop of UPDATE on matches laid out one after the other. *)
Lemma update_applyTargets_spliced (r c : string) (ms : list Target) :
  forall pos,
    chainedFrom pos (String.length c) ms = true ->
    UpdateCommand.applyTargets r ms c
    = (JS.take pos c ++ spliced r c pos ms)%string
    /\ String.length (spliced r c pos ms) + sumMatchLengths ms + pos
       = String.length c + List.length ms * String.length r.
Proof.
  induction ms as [|m ms IH]; intros pos H.
  - cbn [chainedFrom] in H. apply Nat.leb_le in H. split.
    + unfold UpdateCommand.applyTargets. cbn [rev fold_left spliced].
      now rewrite take_drop.
    + cbn [spliced]. rewrite length_drop. cbn. lia.
  - pose proof (chainedFrom_le _ _ _ H) as Hpos.
    cbn [chainedFrom] in H.
    apply andb_true_iff in H as [H Hrest].
    apply andb_true_iff in H as [Hps Hse].
    apply Nat.leb_le in Hps, Hse.
    pose proof (chainedFrom_le _ _ _ Hrest) as He.
    destruct (IH _ Hrest) as [IHeq IHlen].
    split.
    + rewrite update_applyTargets_cons, IHeq, replaceContent_spec.
      rewrite take_append_le by (rewrite length_take; lia).
      rewrite take_take by lia.
      rewrite drop_append_length by (rewrite length_take; lia).
      cbn [spliced]. rewrite (take_split pos (startIndex m) c) by lia.
      now rewrite append_assoc.
    + cbn [spliced]. rewrite !length_append, length_take, length_drop.
      unfold sumMatchLengths in *. cbn [map List.length].
      change (list_sum (matchLength m :: map matchLength ms))
        with (matchLength m + list_sum (map matchLength ms)).
      unfold matchLength at 1. cbn [Nat.mul]. lia.
Qed.

(** X7.  When the target of an UPDATE resolves to matches laid out one
    after the other inside the content (each begins no earlier than the
    one before ends), the command returns the content with the replacement
    text in the place of every match and everything between the matches
    untouched; the length changes by the replacement length times the
    number of matches minus the total length of the matches. *)
Theorem update_chained_matches
    (node targetNode contentNode : SyntaxNode.t) (c : string) (tree : Tree)
    (ms : list Target) :
  SyntaxNode.child node 0 = Some targetNode ->
  SyntaxNode.child node 2 = Some contentNode ->
  Resolver.findTargets tree targetNode (SyntaxNode.child node 1) = Ok ms ->
  chainedFrom 0 (String.length c) ms = true ->
  let r := UpdateCommand.extractContent contentNode in
  UpdateCommand.execute node c tree = Ok (spliced r c 0 ms)
  /\ String.length (spliced r c 0 ms) + sumMatchLengths ms
     = String.length c + List.length ms * String.length r.
Proof.
  intros Htarget Hcontent Hfound Hchain r.
  destruct (update_applyTargets_spliced r c ms 0 Hchain) as [Heq Hlen].
  split.
  - unfold UpdateCommand.execute. rewrite Hcontent, Htarget, Hfound.
    cbn [bind]. fold r. rewrite Heq. reflexivity.
  - lia.
Qed.

(** X8.  UPDATE reads its new content from the third child of the command
    node: a node with fewer than three children, in particular one without
    a target, is rejected with the missing-content error, whatever the
    content and the tree; the branch that would replace the whole content
    when there is no target is therefore never taken. *)
Theorem update_needs_three_children
    (node : SyntaxNode.t) (c : string) (tree : Tree) :
  SyntaxNode.childCount node < 3 ->
  UpdateCommand.execute node c tree
  = Throw (Error "Update command requires content").
Proof.
  intros Hcount. unfold UpdateCommand.execute, SyntaxNode.child.
  assert (Hnone : nth_error (SyntaxNode.children node) 2 = None).
  { apply nth_error_None. unfold SyntaxNode.childCount in Hcount. lia. }
  now rewrite Hnone.
Qed.

(** X9.  A target node that is neither an [identifier], a [string] nor a
    [regex_pattern] resolves to the empty match set without any error:
    DELETE and UPDATE then return the content unchanged and SELECT returns
    the empty text. *)
Theorem unknown_target_kind_matches_nothing
    (node targetNode : SyntaxNode.t) (c : string) (tree : Tree) :
  SyntaxNode.child node 0 = Some targetNode ->
  SyntaxNode.type targetNode <> "identifier" ->
  SyntaxNode.type targetNode <> "string" ->
  SyntaxNode.type targetNode <> "regex_pattern" ->
  Resolver.findTargets tree targetNode (SyntaxNode.child node 1) = Ok []
  /\ DeleteCommand.execute node c tree = Ok c
  /\ SelectCommand.execute node c tree = Ok ""
  /\ (forall contentNode,
        SyntaxNode.child node 2 = Some contentNode ->
        UpdateCommand.execute node c tree = Ok c).
Proof.
  intros Htarget Hid Hstr Hre.
  apply String.eqb_neq in Hid, Hstr, Hre.
  assert (Hfound : Resolver.findTargets tree targetNode (SyntaxNode.child node 1)
                   = Ok []).
  { unfold Resolver.findTargets. rewrite Hid, Hstr, Hre. cbn [bind].
    destruct (SyntaxNode.child node 1) as [cond|]; [|reflexivity].
    unfold Resolver.filterTargetsByCondition.
    now destruct (Resolver.parseCondition cond) as [[f o] v]. }
  repeat split.
  - exact Hfound.
  - unfold DeleteCommand.execute. now rewrite Htarget, Hfound.
  - unfold SelectCommand.execute. now rewrite Htarget, Hfound.
  - intros contentNode Hcontent.
    unfold UpdateCommand.execute. now rewrite Hcontent, Htarget, Hfound.
Qed.

End UpdateFacts.

(** ** Selecting, inserting and dispatching *)

Section SelectFacts.
Context {RE : RegExpEngine}.

(** On a tree that is the parse of the content, the slice at the span of a
    node is the text of the node. *)
Lemma consistent_slices (c : string) (tree : Tree) (p : SyntaxNode.t -> bool) :
  consistentWith c tree = true ->
  map (fun target => JS.substring c (startIndex target) (endIndex target))
    (map spanOf (filter p (SyntaxNode.subtree (rootNode tree))))
  = map SyntaxNode.text (filter p (SyntaxNode.subtree (rootNode tree))).
Proof.
  unfold consistentWith. intros Hcons. rewrite forallb_forall in Hcons.
  rewrite map_map. apply map_ext_in. intros n Hn.
  apply filter_In in Hn as [Hn _]. specialize (Hcons n Hn).
  apply String.eqb_eq in Hcons. cbn. now rewrite Hcons.
Qed.

Lemma texts_of_equal_nodes (t : string) (nodes : list SyntaxNode.t) :
  map SyntaxNode.text
    (filter (fun n => String.eqb (SyntaxNode.text n) t) nodes)
  = List.repeat t
      (List.length (filter (fun n => String.eqb (SyntaxNode.text n) t) nodes)).
Proof.
  induction nodes as [|n nodes IH]; [reflexivity|].
  cbn [filter]. destruct (String.eqb (SyntaxNode.text n) t) eqn:Heq;
    [|exact IH].
  apply String.eqb_eq in Heq. cbn [map List.length List.repeat].
  now rewrite IH, Heq.
Qed.

(** X10.  On a tree whose node texts are the slices of the content, SELECT
    with an [identifier] target and no condition returns the texts of the
    nodes of that type, in pre-order, joined by newlines. *)
Theorem select_identifier_texts
    (node targetNode : SyntaxNode.t) (c : string) (tree : Tree) :
  SyntaxNode.child node 0 = Some targetNode ->
  SyntaxNode.child node 1 = None ->
  SyntaxNode.type targetNode = "identifier" ->
  consistentWith c tree = true ->
  SelectCommand.execute node c tree
  = Ok (JS.join JS.newline
          (map SyntaxNode.text
             (filter
                (fun n =>
                   String.eqb (SyntaxNode.type n) (SyntaxNode.text targetNode))
                (SyntaxNode.subtree (rootNode tree))))).
Proof.
  intros Htarget Hcond Hty Hcons.
  unfold SelectCommand.execute, Resolver.findTargets.
  rewrite Htarget, Hcond, Hty, String.eqb_refl. cbn [bind].
  rewrite findNodesWithType_preorder. cbn [app].
  now rewrite consistent_slices.
Qed.

(** X11.  On such a tree SELECT with a [string] target and no condition
    returns the target text once for every node whose whole text equals
    it, joined by newlines: exactly the text when one node has it, the
    empty text when none has. *)
Theorem select_string_repeats
    (node targetNode : SyntaxNode.t) (c : string) (tree : Tree) :
  SyntaxNode.child node 0 = Some targetNode ->
  SyntaxNode.child node 1 = None ->
  SyntaxNode.type targetNode = "string" ->
  consistentWith c tree = true ->
  let t := JS.strip_quotes (SyntaxNode.text targetNode) in
  SelectCommand.execute node c tree
  = Ok (JS.join JS.newline
          (List.repeat t
             (List.length
                (filter (fun n => String.eqb (SyntaxNode.text n) t)
                   (SyntaxNode.subtree (rootNode tree)))))).
Proof.
  intros Htarget Hcond Hty Hcons t.
  unfold SelectCommand.execute, Resolver.findTargets.
  rewrite Htarget, Hcond, Hty.
  change (String.eqb "string" "identifier") with false.
  rewrite String.eqb_refl. cbn [bind].
  rewrite findNodesWithText_preorder. cbn [app]. fold t.
  now rewrite consistent_slices, texts_of_equal_nodes.
Qed.

End SelectFacts.

Lemma strip_trailing_quote_last (q : ascii) (x : string) :
  JS.is_quote q = true ->
  JS.strip_trailing_quote (x ++ String q "") = x.
Proof.
  intros Hq. induction x as [|ch x IH]; cbn [append JS.strip_trailing_quote].
  - now rewrite Hq.
  - rewrite IH. now destruct x.
Qed.

(** X12.  A text between two quote characters (single, double or back
    quote, not necessarily the same) is extracted as it is, whatever it
    contains: only the outer pair is removed. *)
Theorem extractContent_unquotes
    (opening closing : ascii) (x : string) (node : SyntaxNode.t) :
  JS.is_quote opening = true ->
  JS.is_quote closing = true ->
  SyntaxNode.text node = String opening (x ++ String closing "") ->
  UpdateCommand.extractContent node = x
  /\ InsertCommand.extractContent node = x
  /\ CreateCommand.extractContent node = x.
Proof.
  intros Hopen Hclose Htext.
  unfold UpdateCommand.extractContent, InsertCommand.extractContent,
    CreateCommand.extractContent.
  rewrite Htext. cbn [JS.strip_quotes]. rewrite Hopen.
  now rewrite strip_trailing_quote_last.
Qed.

(** X13.  A successful INSERT never loses or reorders content: its result
    begins or ends with the whole input content. *)
Theorem insert_keeps_content
    (node : SyntaxNode.t) (c : string) (tree : Tree) (out : string) :
  InsertCommand.execute node c tree = Ok out ->
  exists x, out = (x ++ c)%string \/ out = (c ++ x)%string.
Proof.
  unfold InsertCommand.execute.
  destruct (SyntaxNode.child node 0) as [pn|]; [|discriminate].
  destruct (SyntaxNode.child node 1) as [cn|]; [|discriminate].
  destruct (String.eqb (SyntaxNode.text pn) "start").
  { intros [= <-]. eexists. left. reflexivity. }
  destruct (String.eqb (SyntaxNode.text pn) "end").
  { intros [= <-]. eexists. right. reflexivity. }
  destruct (String.eqb (SyntaxNode.text pn) "before"
            || String.eqb (SyntaxNode.text pn) "after"); [|discriminate].
  intros [= <-]. exists "". now left.
Qed.

(** X14.  Every node the command factory accepts is a node the parser
    lists as a command node (its type ends in [_command]), and the command
    object holds that very node. *)
Theorem factory_accepts_command_nodes (node : SyntaxNode.t) (command : Command) :
  CommandFactory.createCommand node = Ok command ->
  CEDARParser.isCommandNode node = true /\ commandNode command = node.
Proof.
  unfold CommandFactory.createCommand, CEDARParser.isCommandNode.
  repeat
    (match goal with
     | |- context [String.eqb (SyntaxNode.type node) ?name] =>
         destruct (String.eqb (SyntaxNode.type node) name) eqn:?H
     end;
     [match goal with
      | H : String.eqb _ _ = true |- _ =>
          apply String.eqb_eq in H; rewrite H; intros [= <-];
          split; reflexivity
      end|]).
  discriminate.
Qed.

(** ** The line engine, line by line *)

Section ArrayMiddle.
Context {A : Type}.

Lemma set_nth_middle (done rest : list A) (x v : A) :
  JS.set_nth (done ++ x :: rest) (List.length done) v = done ++ v :: rest.
Proof. induction done as [|d done IH]; cbn; [reflexivity | now rewrite IH]. Qed.

Lemma splice1_middle (done rest : list A) (x : A) :
  JS.splice1 (done ++ x :: rest) (List.length done) = done ++ rest.
Proof. induction done as [|d done IH]; cbn; [reflexivity | now rewrite IH]. Qed.

Lemma index_middle (done rest : list A) (x : A) :
  JS.index (done ++ x :: rest) (Z.of_nat (List.length done)) = Some x.
Proof.
  unfold JS.index.
  destruct (Z.ltb_spec (Z.of_nat (List.length done)) 0) as [Hneg|_]; [lia|].
  rewrite Nat2Z.id. clear.
  induction done as [|d done IH]; [reflexivity | exact IH].
Qed.

End ArrayMiddle.

Section LineByLine.
Context {RE : RegExpEngine} {SL : StringLimit}.

(** The inner loop on the line at index [length done]: the line is
    replaced by what [rewriteLine] makes of it, and the index steps back
    when that is nothing. *)
Lemma applyCases_rewriteLine (rules : list (CaseWhen * CaseAction))
    (done rest : list string) (line : string) :
  CedarDiffServer.applyCases rules line (Z.of_nat (List.length done))
    (done ++ line :: rest)
  = (out <- rewriteLine rules line ;;
     Ok ((Z.of_nat (List.length done) + Z.of_nat (List.length out) - 1)%Z,
         done ++ out ++ rest)).
Proof.
  induction rules as [|[w t] rules IH];
    cbn [CedarDiffServer.applyCases rewriteLine bind].
  - cbn [List.length app]. do 2 f_equal. lia.
  - destruct (CedarDiffServer.matchesCondition line w) as [[|]|e]; cbn [bind];
      [|exact IH|reflexivity].
    destruct (CedarDiffServer.applyAction line t) as [newLine|e]; cbn [bind];
      [|reflexivity].
    rewrite Nat2Z.id, set_nth_middle.
    destruct (JS.truthy_bool (remove t)).
    + rewrite splice1_middle. cbn [List.length app]. do 2 f_equal. lia.
    + cbn [List.length app]. do 2 f_equal. lia.
Qed.

(** The outer loop with [done] behind the index and [todo] ahead. *)
Lemma loop_rewriteAll (rules : list (CaseWhen * CaseAction))
    (todo : list string) :
  forall (fuel : nat) (done : list string),
    List.length todo <= fuel ->
    CedarDiffServer.loop fuel rules (Z.of_nat (List.length done)) (done ++ todo)
    = Some (outs <- rewriteAll rules todo ;; Ok (done ++ outs)).
Proof.
  induction todo as [|line todo IH]; intros fuel done Hfuel.
  - cbn [rewriteAll bind]. rewrite !app_nil_r.
    destruct fuel; cbn [CedarDiffServer.loop]; rewrite Z.ltb_irrefl;
      reflexivity.
  - destruct fuel as [|fuel]; [cbn in Hfuel; lia|].
    cbn [CedarDiffServer.loop].
    destruct (Z.ltb_spec (Z.of_nat (List.length done))
                (Z.of_nat (List.length (done ++ line :: todo)))) as [_|Hge];
      [|rewrite length_app in Hge; cbn in Hge; lia].
    unfold CedarDiffServer.iteration.
    rewrite index_middle, applyCases_rewriteLine.
    cbn [rewriteAll].
    destruct (rewriteLine rules line) as [out|e]; cbn [bind fst snd];
      [|reflexivity].
    replace (Z.of_nat (List.length done) + Z.of_nat (List.length out) - 1 + 1)%Z
      with (Z.of_nat (List.length (done ++ out)))
      by (rewrite length_app; lia).
    rewrite app_assoc, IH by (cbn in Hfuel; lia).
    destruct (rewriteAll rules todo) as [outs|e]; cbn [bind]; [|reflexivity].
    now rewrite app_assoc.
Qed.

(** The outer loop from index zero. *)
Lemma loop_from_start (fuel : nat) (rules : list (CaseWhen * CaseAction))
    (lines : list string) :
  List.length lines <= fuel ->
  CedarDiffServer.loop fuel rules 0 lines = Some (rewriteAll rules lines).
Proof.
  intros Hfuel.
  pose proof (loop_rewriteAll rules lines fuel [] Hfuel) as H.
  cbn [List.length app Z.of_nat] in H. rewrite H.
  now destruct (rewriteAll rules lines).
Qed.

Lemma rewriteLine_unmatched (rules : list (CaseWhen * CaseAction))
    (line : string) :
  unmatched rules line -> rewriteLine rules line = Ok [line].
Proof.
  induction 1 as [|[w t] rules Hw _ IH]; [reflexivity|].
  cbn [rewriteLine]. cbn [fst] in Hw. now rewrite Hw.
Qed.

Lemma rewriteAll_unmatched (rules : list (CaseWhen * CaseAction))
    (lines : list string) :
  Forall (unmatched rules) lines -> rewriteAll rules lines = Ok lines.
Proof.
  induction 1 as [|line lines Hline _ IH]; [reflexivity|].
  cbn [rewriteAll]. now rewrite (rewriteLine_unmatched _ _ Hline), IH.
Qed.

Lemma rewriteLine_short (rules : list (CaseWhen * CaseAction))
    (line : string) (out : list string) :
  rewriteLine rules line = Ok out -> List.length out <= 1.
Proof.
  induction rules as [|[w t] rules IH]; cbn [rewriteLine].
  - intros [= <-]. cbn. lia.
  - destruct (CedarDiffServer.matchesCondition line w) as [[|]|e]; cbn [bind];
      [|exact IH|discriminate].
    destruct (CedarDiffServer.applyAction line t); cbn [bind]; [|discriminate].
    intros [= <-]. destruct (JS.truthy_bool (remove t)); cbn; lia.
Qed.

Lemma rewriteAll_short (rules : list (CaseWhen * CaseAction))
    (lines out : list string) :
  rewriteAll rules lines = Ok out -> List.length out <= List.length lines.
Proof.
  revert out. induction lines as [|line lines IH]; intros out;
    cbn [rewriteAll].
  - intros [= <-]. cbn. lia.
  - destruct (rewriteLine rules line) as [o|] eqn:Hline; cbn [bind];
      [|discriminate].
    destruct (rewriteAll rules lines) as [os|]; cbn [bind]; [|discriminate].
    intros [= <-]. apply rewriteLine_short in Hline.
    specialize (IH os eq_refl). rewrite length_app. cbn. lia.
Qed.

(** With rules that all remove, a line is either dropped or kept as it is,
    and it is kept only when no rule matches it. *)
Lemma rewriteLine_removals (rules : list (CaseWhen * CaseAction))
    (line : string) (out : list string) :
  Forall (fun r => JS.truthy_bool (remove (snd r)) = true) rules ->
  rewriteLine rules line = Ok out ->
  out = [] \/ (out = [line] /\ unmatched rules line).
Proof.
  induction 1 as [|[w t] rules Ht _ IH]; cbn [rewriteLine].
  - intros [= <-]. right. split; [reflexivity | constructor].
  - cbn [snd] in Ht.
    destruct (CedarDiffServer.matchesCondition line w) as [[|]|e] eqn:Hw;
      cbn [bind]; [| |discriminate].
    + destruct (CedarDiffServer.applyAction line t); cbn [bind];
        [|discriminate].
      rewrite Ht. intros [= <-]. now left.
    + intros Hrest. destruct (IH Hrest) as [-> | [-> Hun]]; [now left|].
      right. split; [reflexivity|]. constructor; [exact Hw | exact Hun].
Qed.

Lemma rewriteAll_removals (rules : list (CaseWhen * CaseAction))
    (lines out : list string) :
  Forall (fun r => JS.truthy_bool (remove (snd r)) = true) rules ->
  rewriteAll rules lines = Ok out ->
  Forall (unmatched rules) out.
Proof.
  intros Hrules. revert out.
  induction lines as [|line lines IH]; intros out; cbn [rewriteAll].
  - intros [= <-]. constructor.
  - destruct (rewriteLine rules line) as [o|] eqn:Hline; cbn [bind];
      [|discriminate].
    destruct (rewriteAll rules lines) as [os|]; cbn [bind]; [|discriminate].
    intros [= <-]. specialize (IH os eq_refl).
    destruct (rewriteLine_removals _ _ _ Hrules Hline) as [-> | [-> Hun]].
    + exact IH.
    + constructor; assumption.
Qed.

(** X15.  The line engine rewrites the lines one by one and independently:
    with one unit of fuel per line its result is the concatenation, in
    order, of what the rules make of each input line (nothing for a removed
    line, the rewritten line otherwise), or the first error met on the
    way.  No line is skipped after a removal and none is examined twice. *)
Theorem line_engine_rewrites_each_line (fuel : nat)
    (caseStatement : CaseStatement) (lines : list string) :
  List.length lines <= fuel ->
  CedarDiffServer.executeUpdateCommand fuel caseStatement lines
  = Some (rewriteAll (cases caseStatement) lines).
Proof.
  intros Hfuel. unfold CedarDiffServer.executeUpdateCommand.
  now apply loop_from_start.
Qed.

(** X16.  The line engine never adds lines: a result has at most as many
    lines as the input. *)
Theorem line_engine_never_grows (fuel : nat) (caseStatement : CaseStatement)
    (lines out : list string) :
  List.length lines <= fuel ->
  CedarDiffServer.executeUpdateCommand fuel caseStatement lines = Some (Ok out) ->
  List.length out <= List.length lines.
Proof.
  intros Hfuel. unfold CedarDiffServer.executeUpdateCommand.
  rewrite loop_from_start by exact Hfuel.
  intros [= Hout]. eapply rewriteAll_short; eassumption.
Qed.

(** X17.  Lines that no rule matches come back unchanged, whether or not
    the statement has an else-action: the else-action is never applied. *)
Theorem unmatched_lines_unchanged (fuel : nat) (caseStatement : CaseStatement)
    (lines : list string) :
  List.length lines <= fuel ->
  Forall (unmatched (cases caseStatement)) lines ->
  CedarDiffServer.executeUpdateCommand fuel caseStatement lines
  = Some (Ok lines).
Proof.
  intros Hfuel Hun. unfold CedarDiffServer.executeUpdateCommand.
  rewrite loop_from_start by exact Hfuel.
  now rewrite rewriteAll_unmatched.
Qed.

(** X18.  When every rule of the statement removes, the lines of a result
    are lines that no rule matches, and running the statement again on the
    result changes nothing. *)
Theorem removal_rules_idempotent (fuel : nat) (caseStatement : CaseStatement)
    (lines out : list string) :
  List.length lines <= fuel ->
  Forall (fun r => JS.truthy_bool (remove (snd r)) = true)
    (cases caseStatement) ->
  CedarDiffServer.executeUpdateCommand fuel caseStatement lines = Some (Ok out) ->
  Forall (unmatched (cases caseStatement)) out
  /\ CedarDiffServer.executeUpdateCommand fuel caseStatement out
     = Some (Ok out).
Proof.
  intros Hfuel Hrules. unfold CedarDiffServer.executeUpdateCommand.
  rewrite loop_from_start by exact Hfuel.
  intros [= Hout].
  pose proof (rewriteAll_removals _ _ _ Hrules Hout) as Hun.
  pose proof (rewriteAll_short _ _ _ Hout) as Hlen.
  split; [exact Hun|].
  rewrite loop_from_start by lia.
  now rewrite rewriteAll_unmatched.
Qed.

End LineByLine.

(** ** Actions and conditions of the line engine *)

Section ActionFacts.
Context {RE : RegExpEngine} {SL : StringLimit}.

Lemma is_space_blank : JS.is_space " " = true.
Proof. reflexivity. Qed.

Lemma leading_space_blanks (n : nat) (x : string) :
  JS.leading_space (JS.repeat " " n ++ x) = n + JS.leading_space x.
Proof.
  induction n as [|n IH]; [reflexivity|].
  cbn [JS.repeat append JS.leading_space]. rewrite is_space_blank.
  cbn [append]. now rewrite IH.
Qed.

Lemma trimLeft_blanks (n : nat) (x : string) :
  JS.trimLeft (JS.repeat " " n ++ x) = JS.trimLeft x.
Proof.
  induction n as [|n IH]; [reflexivity|].
  cbn [JS.repeat append JS.trimLeft]. rewrite is_space_blank.
  cbn [append]. exact IH.
Qed.

Lemma leading_space_trimLeft (x : string) :
  JS.leading_space (JS.trimLeft x) = 0.
Proof.
  induction x as [|ch x IH]; [reflexivity|].
  cbn [JS.trimLeft]. destruct (JS.is_space ch) eqn:Hch; [exact IH|].
  cbn [JS.leading_space]. now rewrite Hch.
Qed.

Lemma trimLeft_trimLeft (x : string) :
  JS.trimLeft (JS.trimLeft x) = JS.trimLeft x.
Proof.
  induction x as [|ch x IH]; [reflexivity|].
  cbn [JS.trimLeft]. destruct (JS.is_space ch) eqn:Hch; [exact IH|].
  cbn [JS.trimLeft]. now rewrite Hch.
Qed.

Lemma length_blanks (n : nat) : String.length (JS.repeat " " n) = n.
Proof. induction n as [|n IH]; cbn; [reflexivity | now rewrite IH]. Qed.

(** An action that neither removes nor substitutes and carries an indent
    shift runs the indent branch. *)
Lemma applyAction_indent (line : string) (then_ : CaseAction) (delta : Z) :
  JS.truthy_bool (remove then_) = false ->
  JS.truthy_string (subPattern then_) && JS.truthy_string (subRepl then_)
    = false ->
  indent then_ = Some delta ->
  CedarDiffServer.applyAction line then_
  = (blanks <- String_repeat " "
                 (Z.max 0 (Z.of_nat (JS.leading_space line) + delta)) ;;
     String_concat blanks (JS.trimLeft line)).
Proof.
  intros Hremove Hsub Hindent.
  unfold CedarDiffServer.applyAction. rewrite Hremove, Hindent.
  destruct (subPattern then_) as [pat|], (subRepl then_) as [repl|];
    try reflexivity.
  cbn [JS.truthy_string] in Hsub.
  change (JS.truthy_string (Some pat)) with (negb (String.eqb pat "")).
  change (JS.truthy_string (Some repl)) with (negb (String.eqb repl "")).
  now rewrite Hsub.
Qed.

(** X19.  An action that neither removes nor substitutes and carries an
    indent shift re-indents the line: the new width is the old width plus
    the shift, never below zero.  When the re-indented line fits the
    host's longest string, the result is that many blanks followed by the
    text after the old indentation, untouched; when it does not fit, the
    action throws a [RangeError]. *)
Theorem indent_action_reindents (line : string) (then_ : CaseAction)
    (delta : Z) :
  JS.truthy_bool (remove then_) = false ->
  JS.truthy_string (subPattern then_) && JS.truthy_string (subRepl then_)
    = false ->
  indent then_ = Some delta ->
  let width := Z.max 0 (Z.of_nat (JS.leading_space line) + delta) in
  let total := (width + Z.of_nat (String.length (JS.trimLeft line)))%Z in
  ((total <= maxStringLength)%Z ->
   exists out,
     CedarDiffServer.applyAction line then_ = Ok out
     /\ Z.of_nat (JS.leading_space out) = width
     /\ JS.trimLeft out = JS.trimLeft line
     /\ out = (JS.repeat " " (JS.leading_space out) ++ JS.trimLeft line)%string)
  /\ ((maxStringLength < total)%Z ->
      CedarDiffServer.applyAction line then_ = Throw RangeError).
Proof.
  intros Hremove Hsub Hindent width total.
  rewrite (applyAction_indent line then_ delta Hremove Hsub Hindent).
  fold width. unfold String_repeat, String_concat.
  assert (Hwidth : (0 <= width)%Z) by (unfold width; lia).
  destruct (Z.ltb_spec width 0) as [Hneg|_]; [lia|].
  change (Z.of_nat (String.length " ")) with 1%Z. rewrite Z.mul_1_r.
  split.
  - intros Hfits.
    assert (Hlen : (0 <= Z.of_nat (String.length (JS.trimLeft line)))%Z)
      by lia.
    destruct (Z.leb_spec width maxStringLength) as [_|Hover];
      [|unfold total in Hfits; lia].
    cbn [bind]. rewrite length_blanks, Z2Nat.id by exact Hwidth.
    destruct (Z.leb_spec (width + Z.of_nat (String.length (JS.trimLeft line)))
                maxStringLength) as [_|Hover];
      [|unfold total in Hfits; lia].
    exists (JS.repeat " " (Z.to_nat width) ++ JS.trimLeft line)%string.
    assert (Hspace :
              JS.leading_space (JS.repeat " " (Z.to_nat width) ++ JS.trimLeft line)
              = Z.to_nat width).
    { rewrite leading_space_blanks, leading_space_trimLeft. lia. }
    split; [reflexivity|]. split; [rewrite Hspace; lia|].
    split; [now rewrite trimLeft_blanks, trimLeft_trimLeft|].
    now rewrite Hspace.
  - intros Hover. unfold total in Hover.
    destruct (Z.leb_spec width maxStringLength) as [Hfits|_]; [|reflexivity].
    cbn [bind]. rewrite length_blanks, Z2Nat.id by exact Hwidth.
    destruct (Z.leb_spec (width + Z.of_nat (String.length (JS.trimLeft line)))
                maxStringLength) as [Hfits'|_]; [lia | reflexivity].
Qed.

(** X20.  A rule reads only part of its fields.  A condition is decided by
    [empty] and by the non-empty [regex], [prefix] and [suffix]: the fields
    [indentLevel], [lineNumber] and [lineMatcher] are never looked at and
    an empty string counts as a missing field.  In an action an empty
    pattern, replacement or content counts as missing too. *)
Theorem rule_fields_read (line : string) (when : CaseWhen)
    (then_ : CaseAction) :
  CedarDiffServer.matchesCondition line when
  = CedarDiffServer.matchesCondition line
      (mkWhen (empty when) None None None (nonEmpty (regex when))
         (nonEmpty (prefix when)) (nonEmpty (suffix when)))
  /\ CedarDiffServer.applyAction line then_
     = CedarDiffServer.applyAction line
         (mkAction (remove then_) (nonEmpty (subPattern then_))
            (nonEmpty (subRepl then_)) (indent then_)
            (nonEmpty (content then_))).
Proof.
  split.
  - unfold CedarDiffServer.matchesCondition.
    cbn [empty regex prefix suffix].
    destruct (JS.truthy_bool (empty when) && (JS.trim line =? "")%string);
      [reflexivity|].
    assert (Hguard : forall o f, JS.guarded (nonEmpty o) f = JS.guarded o f).
    { intros [s|] f; [|reflexivity]. cbn [nonEmpty JS.guarded JS.truthy_string].
      destruct (String.eqb s "") eqn:Hs; [reflexivity|].
      cbn [JS.guarded JS.truthy_string]. now rewrite Hs. }
    rewrite !Hguard.
    destruct (regex when) as [src|]; [|reflexivity].
    cbn [nonEmpty JS.truthy_string].
    destruct (String.eqb src "") eqn:Hsrc; cbn [negb]; [reflexivity|].
    cbn [JS.truthy_string]. now rewrite Hsrc.
  - unfold CedarDiffServer.applyAction.
    cbn [remove subPattern subRepl indent content].
    destruct (JS.truthy_bool (remove then_)); [reflexivity|].
    assert (Hcontent :
              match content then_ with
              | Some c => if JS.truthy_string (Some c) then Ok c else Ok line
              | None => Ok line
              end
              = match nonEmpty (content then_) with
                | Some c => if JS.truthy_string (Some c) then Ok c else Ok line
                | None => Ok line
                end).
    { destruct (content then_) as [c|]; [|reflexivity].
      cbn [nonEmpty JS.truthy_string].
      destruct (String.eqb c "") eqn:Hc; cbn [negb]; [reflexivity|].
      cbn [JS.truthy_string]. now rewrite Hc. }
    rewrite <- Hcontent.
    destruct (subPattern then_) as [pat|], (subRepl then_) as [repl|];
      cbn [nonEmpty JS.truthy_string];
      try (destruct (String.eqb pat "") eqn:Hpat);
      try (destruct (String.eqb repl "") eqn:Hrepl);
      cbn [negb andb JS.truthy_string];
      rewrite ?Hpat, ?Hrepl; reflexivity.
Qed.

End ActionFacts.

(** ** Running a script *)

Section ScriptFacts.
Context {RE : RegExpEngine} {SL : StringLimit}.

Lemma split_not_nil (sep : ascii) (s : string) : JS.split sep s <> [].
Proof.
  destruct s as [|c s]; cbn [JS.split]; [discriminate|].
  destruct (Ascii.eqb c sep); [discriminate|].
  destruct (JS.split sep s); discriminate.
Qed.

(** Splitting on newlines and joining with newlines gives the text
    back. *)
Lemma join_split_newline (s : string) :
  JS.join JS.newline (JS.split JS.newline_char s) = s.
Proof.
  induction s as [|c s IH]; [reflexivity|].
  cbn [JS.split]. destruct (Ascii.eqb c JS.newline_char) eqn:Hc.
  - apply Ascii.eqb_eq in Hc. subst c.
    pose proof (split_not_nil JS.newline_char s) as Hne.
    destruct (JS.split JS.newline_char s) as [|p ps] eqn:Hsplit;
      [contradiction|].
    change (JS.join JS.newline ("" :: p :: ps))
      with ("" ++ JS.newline ++ JS.join JS.newline (p :: ps))%string.
    rewrite IH. reflexivity.
  - pose proof (split_not_nil JS.newline_char s) as Hne.
    destruct (JS.split JS.newline_char s) as [|p ps] eqn:Hsplit;
      [contradiction|].
    rewrite <- IH. destruct ps as [|p' ps]; reflexivity.
Qed.

Lemma executeCommands_keepsLines (fuel : nat)
    (commands : list ScriptCommand.t) (lines : list string) :
  forallb keepsLines commands = true ->
  CedarDiffServer.executeCommands fuel commands lines = Some (Ok lines).
Proof.
  induction commands as [|command commands IH]; [reflexivity|].
  cbn [forallb]. intros H. apply andb_true_iff in H as [Hkeep Hrest].
  cbn [CedarDiffServer.executeCommands].
  assert (Hone : CedarDiffServer.executeCommand fuel command lines
                 = Some (Ok lines)).
  { unfold CedarDiffServer.executeCommand, keepsLines in *.
    destruct (ScriptCommand.type command); try discriminate; [|reflexivity].
    destruct (ScriptCommand.content command) as [text|]; [|reflexivity].
    apply negb_true_iff in Hkeep. now rewrite Hkeep. }
  rewrite Hone. now apply IH.
Qed.

Variable parseUpdateCommand : string -> completion ScriptCommand.t.
Variable parseCreateCommand : string -> completion ScriptCommand.t.
Variable parseRmCommand : string -> completion ScriptCommand.t.
Variable parseMvCommand : string -> completion ScriptCommand.t.

Lemma parseCommandStrings_unknown (cmdStrs : list string) :
  forallb unknownCommand cmdStrs = true ->
  CedarDiffServer.parseCommandStrings parseUpdateCommand parseCreateCommand
    parseRmCommand parseMvCommand cmdStrs
  = Ok [].
Proof.
  induction cmdStrs as [|cmdStr cmdStrs IH]; [reflexivity|].
  cbn [forallb]. intros H. apply andb_true_iff in H as [Hun Hrest].
  unfold unknownCommand in Hun.
  repeat (apply andb_true_iff in Hun as [Hun ?]).
  repeat match goal with
         | H : negb _ = true |- _ => apply negb_true_iff in H
         end.
  cbn [CedarDiffServer.parseCommandStrings].
  rewrite Hun, H1, H0, H. now apply IH.
Qed.

(** X21.  A script whose commands all leave the lines alone (moves, and
    creations without content) returns the content exactly as it was:
    splitting into lines and joining them again loses nothing, not even a
    final newline. *)
Theorem script_of_neutral_commands_returns_content
    (fuel : nat) (content script : string) (commands : list ScriptCommand.t) :
  CedarDiffServer.parseScript parseUpdateCommand parseCreateCommand
    parseRmCommand parseMvCommand script
  = Ok commands ->
  forallb keepsLines commands = true ->
  CedarDiffServer.executeCedarScript parseUpdateCommand parseCreateCommand
    parseRmCommand parseMvCommand fuel content script
  = Some (Ok content).
Proof.
  intros Hparse Hkeep. unfold CedarDiffServer.executeCedarScript.
  rewrite Hparse, (executeCommands_keepsLines _ _ _ Hkeep).
  now rewrite join_split_newline.
Qed.

(** X22.  Command strings that begin with none of [UPDATE], [CREATE], [RM]
    and [MV] are skipped without any error: a script made of such strings
    only parses to no command at all, and running it returns the content
    unchanged. *)
Theorem unknown_commands_are_skipped
    (fuel : nat) (content script : string) :
  forallb unknownCommand (CedarDiffServer.commandStrings script) = true ->
  CedarDiffServer.parseScript parseUpdateCommand parseCreateCommand
    parseRmCommand parseMvCommand script
  = Ok []
  /\ CedarDiffServer.executeCedarScript parseUpdateCommand parseCreateCommand
       parseRmCommand parseMvCommand fuel content script
     = Some (Ok content).
Proof.
  intros Hun.
  assert (Hparse : CedarDiffServer.parseScript parseUpdateCommand
                     parseCreateCommand parseRmCommand parseMvCommand script
                   = Ok []).
  { unfold CedarDiffServer.parseScript.
    now apply parseCommandStrings_unknown. }
  split; [exact Hparse|].
  unfold CedarDiffServer.executeCedarScript. rewrite Hparse.
  cbn [CedarDiffServer.executeCommands]. now rewrite join_split_newline.
Qed.

End ScriptFacts.

(** ** The order of a match set *)

Section OrderFacts.
Context {RE : RegExpEngine}.

Lemma subseq_nil_l {A : Type} (ys : list A) : subseq [] ys.
Proof. induction ys; constructor; assumption. Qed.

Lemma subseq_refl {A : Type} (xs : list A) : subseq xs xs.
Proof. induction xs; constructor; assumption. Qed.

Lemma subseq_app {A : Type} (xs ys xs' ys' : list A) :
  subseq xs ys -> subseq xs' ys' -> subseq (xs ++ xs') (ys ++ ys').
Proof.
  intros H H'. induction H; cbn [app]; try constructor; assumption.
Qed.

Lemma subseq_filter {A : Type} (p : A -> bool) (xs : list A) :
  subseq (filter p xs) xs.
Proof.
  induction xs as [|x xs IH]; cbn [filter]; [constructor|].
  destruct (p x); constructor; exact IH.
Qed.

Lemma subseq_map {A B : Type} (f : A -> B) (xs ys : list A) :
  subseq xs ys -> subseq (map f xs) (map f ys).
Proof. induction 1; cbn [map]; constructor; assumption. Qed.

Lemma subseq_In {A : Type} (xs ys : list A) (x : A) :
  subseq xs ys -> In x xs -> In x ys.
Proof.
  induction 1 as [|y xs ys _ IH|y xs ys _ IH]; intros Hin.
  - exact Hin.
  - right. now apply IH.
  - destruct Hin as [-> | Hin]; [now left | right; now apply IH].
Qed.

Lemma ascendingStart_subseq (ms ms' : list Target) :
  subseq ms' ms -> ascendingStart ms = true -> ascendingStart ms' = true.
Proof.
  induction 1 as [|y xs ys Hsub IH|x xs ys Hsub IH]; cbn [ascendingStart];
    intros H.
  - reflexivity.
  - apply andb_true_iff in H as [_ H]. now apply IH.
  - apply andb_true_iff in H as [Hfirst H].
    apply andb_true_iff. split; [|now apply IH].
    apply forallb_forall. intros m Hm.
    rewrite forallb_forall in Hfirst. apply Hfirst.
    eapply subseq_In; eassumption.
Qed.

Lemma ascendingStart_app (a b : list Target) :
  ascendingStart a = true -> ascendingStart b = true ->
  (forall x y, In x a -> In y b -> startIndex x <= startIndex y) ->
  ascendingStart (a ++ b) = true.
Proof.
  intros Ha Hb Hcross. induction a as [|m a IH]; [exact Hb|].
  cbn [app ascendingStart] in *.
  apply andb_true_iff in Ha as [Hfirst Ha].
  apply andb_true_iff. split.
  - rewrite forallb_app, Hfirst. cbn [andb].
    apply forallb_forall. intros y Hy. apply Nat.leb_le.
    apply Hcross; [now left | exact Hy].
  - apply IH; [exact Ha|]. intros x y Hx Hy. apply Hcross; [now right | exact Hy].
Qed.

(** In a well ordered tree no span is reversed. *)
Lemma wellOrdered_spans (node : SyntaxNode.t) :
  wellOrdered node = true ->
  forall n, In n (SyntaxNode.subtree node) ->
            SyntaxNode.startIndex n <= SyntaxNode.endIndex n.
Proof.
  induction node as [ty tx s e cs IH] using SyntaxNode_Forall_ind.
  cbn [wellOrdered SyntaxNode.subtree]. intros Hwo n Hin.
  apply andb_true_iff in Hwo as [Hwo Hcs].
  apply andb_true_iff in Hwo as [Hse _]. apply Nat.leb_le in Hse.
  destruct Hin as [<- | Hin]; [exact Hse|].
  induction IH as [|c cs Hc _ IHcs]; [contradiction|].
  cbn [forallb flat_map] in Hcs, Hin.
  apply andb_true_iff in Hcs as [Hc_wo Hrest].
  apply in_app_or in Hin as [Hin | Hin]; [now apply Hc | now apply IHcs].
Qed.

(** The spans of a well nested, well ordered tree, in pre-order, are in
    ascending order of start. *)
Lemma subtree_ascending (node : SyntaxNode.t) :
  wellNested node = true -> wellOrdered node = true ->
  ascendingStart (map spanOf (SyntaxNode.subtree node)) = true.
Proof.
  induction node as [ty tx s e cs IH] using SyntaxNode_Forall_ind.
  intros Hwn Hwo.
  pose proof (wellNested_contains _ Hwn) as Hinside.
  cbn [SyntaxNode.subtree map ascendingStart].
  apply andb_true_iff. split.
  - apply forallb_forall. intros m Hm.
    apply in_map_iff in Hm as (n & <- & Hn). apply Nat.leb_le.
    destruct (Hinside n) as [Hlo _]; [now right | exact Hlo].
  - clear Hinside. cbn [wellNested wellOrdered] in Hwn, Hwo.
    apply andb_true_iff in Hwo as [Hwo Hcs].
    apply andb_true_iff in Hwo as [_ Hsib].
    enough (Hgoal : forall pos,
               siblingsFrom pos cs = true ->
               ascendingStart (map spanOf (flat_map SyntaxNode.subtree cs)) = true
               /\ forall x, In x (flat_map SyntaxNode.subtree cs) ->
                            pos <= SyntaxNode.startIndex x)
      by (now destruct (Hgoal s Hsib)).
    clear Hsib.
    induction IH as [|c cs Hc _ IHcs]; intros pos Hsib.
    + split; [reflexivity | intros x []].
    + cbn [forallb siblingsFrom flat_map] in *.
      apply andb_true_iff in Hwn as [Hhead Hwn].
      apply andb_true_iff in Hhead as [_ Hc_wn].
      apply andb_true_iff in Hcs as [Hc_wo Hcs].
      apply andb_true_iff in Hsib as [Hpos Hsib]. apply Nat.leb_le in Hpos.
      destruct (IHcs Hwn Hcs _ Hsib) as [Hasc Hafter].
      pose proof (wellNested_contains _ Hc_wn) as Hin_c.
      pose proof (wellOrdered_spans _ Hc_wo) as Hspan_c.
      split.
      * rewrite map_app. apply ascendingStart_app;
          [now apply Hc | exact Hasc |].
        intros x y Hx Hy.
        apply in_map_iff in Hx as (nx & <- & Hnx).
        apply in_map_iff in Hy as (ny & <- & Hny).
        cbn [spanOf startIndex].
        specialize (Hin_c nx Hnx). specialize (Hspan_c nx Hnx).
        specialize (Hafter ny Hny). lia.
      * intros x Hx. apply in_app_or in Hx as [Hx | Hx].
        -- specialize (Hin_c x Hx). lia.
        -- specialize (Hafter x Hx).
           assert (Hc_span : SyntaxNode.startIndex c <= SyntaxNode.endIndex c).
           { apply Hspan_c. destruct c. now left. }
           lia.
Qed.

(** Whatever [test] does to the pattern object, the traversal adds the
    spans of some of the nodes it visits, in the order of the visit. *)
Lemma findNodesMatchingRegex_subseq (node : SyntaxNode.t) :
  forall st : RegExp * list Target,
    exists kept,
      snd (Resolver.findNodesMatchingRegex node st) = snd st ++ map spanOf kept
      /\ subseq kept (SyntaxNode.subtree node).
Proof.
  induction node as [ty tx s e cs IH] using SyntaxNode_Forall_ind.
  intros [pattern targets].
  cbn [Resolver.findNodesMatchingRegex SyntaxNode.subtree snd].
  destruct (RegExp_test pattern tx) as [hit pattern'].
  assert (Hfold : forall st,
            exists kept,
              snd (fold_left
                     (fun acc child => Resolver.findNodesMatchingRegex child acc)
                     cs st)
              = snd st ++ map spanOf kept
              /\ subseq kept (flat_map SyntaxNode.subtree cs)).
  { clear targets. induction IH as [|c cs Hc _ IHcs]; intros st;
      cbn [fold_left flat_map].
    - exists []. split; [now rewrite app_nil_r | constructor].
    - destruct (Hc st) as (k1 & Hk1 & Hs1).
      destruct (IHcs (Resolver.findNodesMatchingRegex c st)) as (k2 & Hk2 & Hs2).
      exists (k1 ++ k2). split.
      + now rewrite Hk2, Hk1, map_app, app_assoc.
      + now apply subseq_app. }
  destruct hit.
  - destruct (Hfold (pattern', targets ++ [mkTarget s e])) as (k & Hk & Hs).
    exists (SyntaxNode.mk ty tx s e cs :: k). split.
    + rewrite Hk. cbn [snd map spanOf SyntaxNode.startIndex SyntaxNode.endIndex].
      now rewrite <- app_assoc.
    + now constructor.
  - destruct (Hfold (pattern', targets)) as (k & Hk & Hs).
    exists k. split; [exact Hk | now constructor].
Qed.

(** X23.  On a tree whose nodes contain their children and whose siblings
    follow one another from left to right, every resolved match set, for
    any target and condition, is in ascending order of start: the reversed
    loops of UPDATE and DELETE then go from the highest start to the
    lowest. *)
Theorem findTargets_ascending (tree : Tree) (targetNode : SyntaxNode.t)
    (conditionNode : option SyntaxNode.t) (ms : list Target) :
  wellNested (rootNode tree) = true ->
  wellOrdered (rootNode tree) = true ->
  Resolver.findTargets tree targetNode conditionNode = Ok ms ->
  ascendingStart ms = true.
Proof.
  intros Hwn Hwo Hfound.
  pose proof (subtree_ascending _ Hwn Hwo) as Hall.
  assert (Hraw : forall kept,
            subseq kept (SyntaxNode.subtree (rootNode tree)) ->
            (match conditionNode with
             | Some c =>
                 Ok (Resolver.filterTargetsByCondition (map spanOf kept) c tree)
             | None => Ok (map spanOf kept)
             end) = Ok ms ->
            ascendingStart ms = true).
  { intros kept Hsub Hms.
    assert (Hkept : ascendingStart (map spanOf kept) = true).
    { eapply ascendingStart_subseq; [|exact Hall]. now apply subseq_map. }
    destruct conditionNode as [c|]; injection Hms as <-; [|exact Hkept].
    unfold Resolver.filterTargetsByCondition.
    destruct (Resolver.parseCondition c) as [[f o] v].
    eapply ascendingStart_subseq; [apply subseq_filter | exact Hkept]. }
  unfold Resolver.findTargets in Hfound.
  destruct (String.eqb (SyntaxNode.type targetNode) "identifier").
  { cbn [bind] in Hfound. rewrite findNodesWithType_preorder in Hfound.
    eapply Hraw; [apply subseq_filter | exact Hfound]. }
  destruct (String.eqb (SyntaxNode.type targetNode) "string").
  { cbn [bind] in Hfound. rewrite findNodesWithText_preorder in Hfound.
    eapply Hraw; [apply subseq_filter | exact Hfound]. }
  destruct (String.eqb (SyntaxNode.type targetNode) "regex_pattern").
  - destruct (Resolver.extractRegexPattern targetNode) as [pattern|];
      cbn [bind] in Hfound; [|discriminate].
    destruct (findNodesMatchingRegex_subseq (rootNode tree) (pattern, []))
      as (kept & Hk & Hs).
    rewrite Hk in Hfound. eapply Hraw; [exact Hs | exact Hfound].
  - cbn [bind] in Hfound.
    apply (Hraw [] (subseq_nil_l _) Hfound).
Qed.

End OrderFacts.

(** ** Backups *)

Section BackupFacts.
Variable hostError : string -> string.

Lemma backup_path_differs (filePath : string) :
  (filePath ++ ".bak")%string <> filePath.
Proof.
  intros H. apply (f_equal String.length) in H.
  rewrite length_append in H. cbn in H. lia.
Qed.

(** X24.  A backup taken of an existing file survives any rewriting of the
    file: restoring afterwards puts the original content back, removes the
    backup file (so that a second restore fails) and leaves every other
    file as it was. *)
Theorem backup_then_restore (fs : FileOperations.FileSystem)
    (filePath original newContent : string) :
  fs filePath = Some original ->
  let backed := FileOperations.createBackup hostError fs filePath in
  let written := FileOperations.writeFile (fst backed) filePath newContent in
  let restored :=
    FileOperations.restoreFromBackup hostError (fst written) filePath in
  snd backed = Ok (filePath ++ ".bak")%string
  /\ snd restored = Ok tt
  /\ fst restored filePath = Some original
  /\ fst restored (filePath ++ ".bak")%string = None
  /\ (forall p, p <> filePath -> p <> (filePath ++ ".bak")%string ->
                fst restored p = fs p)
  /\ (exists e,
        snd (FileOperations.restoreFromBackup hostError (fst restored) filePath)
        = Throw e).
Proof.
  intros Hfile.
  pose proof (backup_path_differs filePath) as Hdiff.
  assert (Hbf : String.eqb (filePath ++ ".bak") filePath = false)
    by now apply String.eqb_neq.
  assert (Hfb : String.eqb filePath (filePath ++ ".bak") = false)
    by (apply String.eqb_neq; congruence).
  unfold FileOperations.createBackup, FileOperations.writeFile,
    FileOperations.restoreFromBackup.
  rewrite Hfile. cbn [fst snd].
  assert (Hbackup :
            FileOperations.put
              (FileOperations.put fs (filePath ++ ".bak") original)
              filePath newContent (filePath ++ ".bak")%string
            = Some original).
  { unfold FileOperations.put. now rewrite Hbf, String.eqb_refl. }
  rewrite Hbackup. cbn [fst snd].
  assert (Hgone :
            FileOperations.unlink
              (FileOperations.put
                 (FileOperations.put
                    (FileOperations.put fs (filePath ++ ".bak") original)
                    filePath newContent)
                 filePath original)
              (filePath ++ ".bak") (filePath ++ ".bak")%string
            = None).
  { unfold FileOperations.unlink. now rewrite String.eqb_refl. }
  rewrite Hgone. cbn [fst snd].
  repeat split.
  - unfold FileOperations.unlink, FileOperations.put.
    now rewrite Hfb, String.eqb_refl.
  - intros p Hp Hpb. unfold FileOperations.unlink, FileOperations.put.
    apply String.eqb_neq in Hp, Hpb. now rewrite Hpb, Hp.
  - eexists. reflexivity.
Qed.

End BackupFacts.

(** ** The further properties on concrete inputs *)

Lemma findTargets_identifier_witness :
  Resolver.findTargets flatTree (leaf "identifier" "name" 0 0) None
  = Ok [mkTarget 0 1; mkTarget 4 5; mkTarget 8 9].
Proof.
  apply (findTargets_identifier flatTree (leaf "identifier" "name" 0 0)).
  reflexivity.
Defined.

Lemma findTargets_string_witness :
  Resolver.findTargets flatTree (leaf "string" "'b'" 0 0) None
  = Ok [mkTarget 4 5].
Proof.
  apply (findTargets_string flatTree (leaf "string" "'b'" 0 0)).
  reflexivity.
Defined.

Lemma findTargets_regex_witness :
  Resolver.findTargets nestedTree (leaf "regex_pattern" "/bar/" 0 0) None
  = Ok [mkTarget 0 12; mkTarget 0 11; mkTarget 4 10; mkTarget 4 7].
Proof.
  apply (@findTargets_regex LiteralEngine nestedTree
           (leaf "regex_pattern" "/bar/" 0 0) "bar");
    [reflexivity | reflexivity | intros s; reflexivity].
Defined.

Lemma findTargets_node_spans_witness : hasNodeWithSpan nestedTree 4 10 = true.
Proof.
  apply (findTargets_node_spans nestedTree (leaf "identifier" "call" 0 0)
           (Some (condition "type" "=" "call"))
           [mkTarget 0 11; mkTarget 4 10] (mkTarget 4 10));
    [reflexivity | right; left; reflexivity].
Defined.

Lemma findNodeAtPosition_first_in_preorder_witness :
  Resolver.findNodeAtPosition (rootNode nestedTree) 4 10
  = find (hasSpan 4 10) (SyntaxNode.subtree (rootNode nestedTree))
  /\ (Resolver.findNodeAtPosition (rootNode nestedTree) 4 10 = None
      <-> hasNodeWithSpan nestedTree 4 10 = false).
Proof.
  apply (findNodeAtPosition_first_in_preorder nestedTree 4 10).
  reflexivity.
Defined.

Lemma resolved_matches_are_located_witness :
  exists n,
    Resolver.findNodeAtPosition (rootNode nestedTree) 4 10 = Some n
    /\ spanOf n = mkTarget 4 10.
Proof.
  apply (resolved_matches_are_located nestedTree
           (leaf "identifier" "call" 0 0) None
           [mkTarget 0 11; mkTarget 4 10] (mkTarget 4 10));
    [reflexivity | reflexivity | right; left; reflexivity].
Defined.

Lemma update_chained_matches_witness :
  UpdateCommand.execute
    (updateCommand "name" (condition "type" "=" "name") "'XY'")
    flatSource flatTree
  = Ok "XY = XY + XY"
  /\ String.length "XY = XY + XY" + 3 = String.length flatSource + 3 * 2.
Proof.
  apply (update_chained_matches
           (updateCommand "name" (condition "type" "=" "name") "'XY'")
           (leaf "identifier" "name" 0 0) (leaf "string" "'XY'" 0 0)
           flatSource flatTree [mkTarget 0 1; mkTarget 4 5; mkTarget 8 9]);
    reflexivity.
Defined.

Lemma update_needs_three_children_witness :
  UpdateCommand.execute updateWithoutCondition flatSource flatTree
  = Throw (Error "Update command requires content").
Proof.
  apply (update_needs_three_children updateWithoutCondition flatSource flatTree).
  cbn. lia.
Defined.

Lemma unknown_target_kind_matches_nothing_witness :
  Resolver.findTargets flatTree (leaf "number" "42" 0 0)
    (SyntaxNode.child deleteNumber 1)
  = Ok []
  /\ DeleteCommand.execute deleteNumber flatSource flatTree = Ok flatSource
  /\ SelectCommand.execute deleteNumber flatSource flatTree = Ok ""
  /\ (forall contentNode,
        SyntaxNode.child deleteNumber 2 = Some contentNode ->
        UpdateCommand.execute deleteNumber flatSource flatTree = Ok flatSource).
Proof.
  apply (unknown_target_kind_matches_nothing deleteNumber
           (leaf "number" "42" 0 0) flatSource flatTree);
    [reflexivity | discriminate | discriminate | discriminate].
Defined.

Lemma select_identifier_texts_witness :
  SelectCommand.execute (selectBy "identifier" "name") flatSource flatTree
  = Ok (JS.join JS.newline ["a"; "b"; "c"]).
Proof.
  apply (select_identifier_texts (selectBy "identifier" "name")
           (leaf "identifier" "name" 0 0) flatSource flatTree);
    reflexivity.
Defined.

Lemma select_string_repeats_witness :
  SelectCommand.execute (selectBy "string" "'foo(bar(x));'")
    nestedSource nestedTree
  = Ok (JS.join JS.newline (List.repeat "foo(bar(x));" 1)).
Proof.
  apply (select_string_repeats (selectBy "string" "'foo(bar(x));'")
           (leaf "string" "'foo(bar(x));'" 0 0) nestedSource nestedTree);
    reflexivity.
Defined.

Lemma extractContent_unquotes_witness :
  UpdateCommand.extractContent (leaf "string" "'it's'" 0 0) = "it's"
  /\ InsertCommand.extractContent (leaf "string" "'it's'" 0 0) = "it's"
  /\ CreateCommand.extractContent (leaf "string" "'it's'" 0 0) = "it's".
Proof.
  apply (extractContent_unquotes (ascii_of_nat 39) (ascii_of_nat 39) "it's"
           (leaf "string" "'it's'" 0 0));
    reflexivity.
Defined.

Lemma insert_keeps_content_witness :
  exists x,
    "Xa = b + c" = (x ++ flatSource)%string
    \/ "Xa = b + c" = (flatSource ++ x)%string.
Proof.
  apply (insert_keeps_content (insertCommand "start" "'X'") flatSource flatTree
           "Xa = b + c").
  reflexivity.
Defined.

Lemma factory_accepts_command_nodes_witness :
  CEDARParser.isCommandNode (deleteCommand "name") = true
  /\ commandNode (newCommand IsDeleteCommand (deleteCommand "name"))
     = deleteCommand "name".
Proof.
  apply (factory_accepts_command_nodes (deleteCommand "name")
           (newCommand IsDeleteCommand (deleteCommand "name"))).
  reflexivity.
Defined.

Lemma line_engine_rewrites_each_line_witness :
  CedarDiffServer.executeUpdateCommand 4 commentRules commentLines
  = Some (rewriteAll (cases commentRules) commentLines).
Proof.
  apply (line_engine_rewrites_each_line 4 commentRules commentLines).
  cbn. lia.
Defined.

Lemma line_engine_never_grows_witness :
  List.length ["a"; "b"] <= List.length commentLines.
Proof.
  apply (line_engine_never_grows 4 commentRules commentLines ["a"; "b"]);
    [cbn; lia | reflexivity].
Defined.

Lemma unmatched_lines_unchanged_witness :
  CedarDiffServer.executeUpdateCommand 2 commentRules ["a"; "b"]
  = Some (Ok ["a"; "b"]).
Proof.
  apply (unmatched_lines_unchanged 2 commentRules ["a"; "b"]);
    [cbn; lia | repeat (constructor; try reflexivity)].
Defined.

Lemma removal_rules_idempotent_witness :
  Forall (unmatched (cases commentRules)) ["a"; "b"]
  /\ CedarDiffServer.executeUpdateCommand 4 commentRules ["a"; "b"]
     = Some (Ok ["a"; "b"]).
Proof.
  apply (removal_rules_idempotent 4 commentRules commentLines ["a"; "b"]);
    [cbn; lia | repeat (constructor; try reflexivity) | reflexivity].
Defined.

Lemma indent_action_reindents_witness :
  let width := Z.max 0 (Z.of_nat (JS.leading_space "    x = 1") + -2) in
  let total :=
    (width + Z.of_nat (String.length (JS.trimLeft "    x = 1")))%Z in
  ((total <= maxStringLength)%Z ->
   exists out,
     CedarDiffServer.applyAction "    x = 1" (indentBy (-2)) = Ok out
     /\ Z.of_nat (JS.leading_space out) = width
     /\ JS.trimLeft out = JS.trimLeft "    x = 1"
     /\ out = (JS.repeat " " (JS.leading_space out)
                 ++ JS.trimLeft "    x = 1")%string)
  /\ ((maxStringLength < total)%Z ->
      CedarDiffServer.applyAction "    x = 1" (indentBy (-2))
      = Throw RangeError).
Proof.
  apply (indent_action_reindents "    x = 1" (indentBy (-2)) (-2));
    reflexivity.
Defined.

(** A shift that no string can hold: the action, and with it the whole
    statement, throws. *)
Example indent_overflow_throws :
  CedarDiffServer.applyAction "x" (indentBy (2 ^ 31)) = Throw RangeError
  /\ CedarDiffServer.executeUpdateCommand 1
       (mkCase [(whenPrefix "x", indentBy (2 ^ 31))] None) ["x"]
     = Some (Throw RangeError)
  /\ CedarDiffServer.applyAction "    x = 1" (indentBy (-2)) = Ok "  x = 1".
Proof. repeat split; reflexivity. Qed.

Lemma script_of_neutral_commands_returns_content_witness :
  CedarDiffServer.executeCedarScript refuse refuse refuse acceptMove 0
    JS.newline "MV FILE 'a' TO 'b'; "
  = Some (Ok JS.newline).
Proof.
  apply (script_of_neutral_commands_returns_content refuse refuse refuse
           acceptMove 0 JS.newline "MV FILE 'a' TO 'b'; " [moveCommand]);
    reflexivity.
Defined.

Lemma unknown_commands_are_skipped_witness :
  CedarDiffServer.parseScript refuse refuse refuse refuse
    "DELETE x; ;update y"
  = Ok []
  /\ CedarDiffServer.executeCedarScript refuse refuse refuse refuse 0
       flatSource "DELETE x; ;update y"
     = Some (Ok flatSource).
Proof.
  apply (unknown_commands_are_skipped refuse refuse refuse refuse 0
           flatSource "DELETE x; ;update y").
  reflexivity.
Defined.

Lemma findTargets_ascending_witness :
  ascendingStart [mkTarget 0 11; mkTarget 4 10] = true.
Proof.
  apply (findTargets_ascending nestedTree (leaf "identifier" "call" 0 0) None
           [mkTarget 0 11; mkTarget 4 10]);
    reflexivity.
Defined.

Lemma backup_then_restore_witness :
  let backed := FileOperations.createBackup noSuchFile oneFile "a.txt" in
  let written := FileOperations.writeFile (fst backed) "a.txt" "changed" in
  let restored :=
    FileOperations.restoreFromBackup noSuchFile (fst written) "a.txt" in
  snd backed = Ok "a.txt.bak"
  /\ snd restored = Ok tt
  /\ fst restored "a.txt" = Some "hello"
  /\ fst restored "a.txt.bak" = None
  /\ (forall p, p <> "a.txt" -> p <> "a.txt.bak" -> fst restored p = oneFile p)
  /\ (exists e,
        snd (FileOperations.restoreFromBackup noSuchFile (fst restored) "a.txt")
        = Throw e).
Proof.
  apply (backup_then_restore noSuchFile oneFile "a.txt" "hello" "changed").
  reflexivity.
Defined.

(** ** Operators, nested matches and empty lines *)

Section FurtherFacts.
Context {RE : RegExpEngine} {SL : StringLimit}.

(** X25.  In a condition on [type] or on [text] every operator other than
    the equals sign is read as the substring test; an operator such as an
    inequality therefore keeps the matches whose field contains the
    value. *)
Theorem operator_other_than_equals_is_contains
    (targets : list Target) (conditionNode : SyntaxNode.t) (tree : Tree)
    (field operator value : string) :
  Resolver.parseCondition conditionNode = (field, operator, value) ->
  field = "type" \/ field = "text" ->
  operator <> "=" ->
  Resolver.filterTargetsByCondition targets conditionNode tree
  = filter
      (fun target =>
         match
           Resolver.findNodeAtPosition (rootNode tree)
             (startIndex target) (endIndex target)
         with
         | Some n =>
             JS.includes
               (if String.eqb field "type"
                then SyntaxNode.type n else SyntaxNode.text n)
               value
         | None => false
         end)
      targets.
Proof.
  intros Hparse Hfield Hop. apply String.eqb_neq in Hop.
  unfold Resolver.filterTargetsByCondition. rewrite Hparse.
  apply filter_ext. intros target. unfold Resolver.keepTarget. rewrite Hop.
  destruct Hfield as [-> | ->]; reflexivity.
Qed.

Lemma drop_append_ge (n : nat) (a b : string) :
  String.length a <= n -> JS.drop n (a ++ b) = JS.drop (n - String.length a) b.
Proof.
  revert n; induction a as [|ch a IH]; intros n Hn.
  - cbn. now rewrite Nat.sub_0_r.
  - destruct n as [|n]; cbn in Hn; [lia|]. cbn. apply IH. lia.
Qed.

Lemma drop_drop (n m : nat) (c : string) :
  JS.drop n (JS.drop m c) = JS.drop (m + n) c.
Proof.
  revert c; induction m as [|m IH]; intros c.
  - now rewrite drop_0.
  - destruct c as [|ch c]; cbn; [now destruct n | apply IH].
Qed.

(** X26.  When the target of a DELETE resolves to a match and a second
    match nested inside it, the command cuts out the outer match and, on
    top of it, as many of the code units that follow the outer match as the
    inner match is long. *)
Theorem delete_nested_pair_cuts_too_much
    (node targetNode : SyntaxNode.t) (c : string) (tree : Tree)
    (outerStart outerEnd innerStart innerEnd : nat) :
  SyntaxNode.child node 0 = Some targetNode ->
  Resolver.findTargets tree targetNode (SyntaxNode.child node 1)
  = Ok [mkTarget outerStart outerEnd; mkTarget innerStart innerEnd] ->
  outerStart <= innerStart -> innerStart <= innerEnd ->
  innerEnd <= outerEnd -> outerEnd <= String.length c ->
  DeleteCommand.execute node c tree
  = Ok (JS.take outerStart c
          ++ JS.drop (outerEnd + (innerEnd - innerStart)) c)%string.
Proof.
  intros Htarget Hfound H1 H2 H3 H4.
  unfold DeleteCommand.execute. rewrite Htarget, Hfound. cbn [bind].
  rewrite !delete_applyTargets_cons.
  unfold DeleteCommand.applyTargets. cbn [rev fold_left startIndex endIndex].
  rewrite !deleteContent_spec.
  rewrite take_append_le by (rewrite length_take; lia).
  rewrite take_take by lia.
  rewrite drop_append_ge by (rewrite length_take; lia).
  rewrite length_take, drop_drop.
  do 3 f_equal. lia.
Qed.

Lemma trimLeft_cases (s : string) :
  (allSpace s = true /\ JS.trimLeft s = "")
  \/ (allSpace s = false
      /\ exists ch rest, JS.trimLeft s = String ch rest
                         /\ JS.is_space ch = false).
Proof.
  induction s as [|ch s IH]; [now left|].
  cbn [allSpace JS.trimLeft]. destruct (JS.is_space ch) eqn:Hch.
  - exact IH.
  - right. split; [reflexivity|]. now exists ch, s.
Qed.

Lemma trim_empty (s : string) :
  String.eqb (JS.trim s) "" = allSpace s.
Proof.
  unfold JS.trim.
  destruct (trimLeft_cases s) as [[-> ->] | [-> (ch & rest & -> & Hch)]];
    [reflexivity|].
  cbn [JS.trimRight]. rewrite Hch. now destruct (JS.trimRight rest).
Qed.

(** X27.  A condition that only asks for [empty] matches exactly the lines
    made of white space only, the line of length zero included. *)
Theorem empty_condition_matches_blank_lines (line : string) (when : CaseWhen) :
  empty when = Some true ->
  regex when = None -> prefix when = None -> suffix when = None ->
  CedarDiffServer.matchesCondition line when = Ok (allSpace line).
Proof.
  intros He Hr Hp Hs. unfold CedarDiffServer.matchesCondition.
  rewrite He, Hr, Hp, Hs, trim_empty. cbn [JS.truthy_bool andb bind JS.guarded].
  now destruct (allSpace line).
Qed.

End FurtherFacts.

Lemma operator_other_than_equals_is_contains_witness :
  Resolver.filterTargetsByCondition
    [mkTarget 0 1; mkTarget 4 5; mkTarget 8 9]
    (condition "text" "!=" "'b'") flatTree
  = [mkTarget 4 5].
Proof.
  apply (operator_other_than_equals_is_contains
           [mkTarget 0 1; mkTarget 4 5; mkTarget 8 9]
           (condition "text" "!=" "'b'") flatTree "text" "!=" "b");
    [reflexivity | right; reflexivity | discriminate].
Defined.

Lemma delete_nested_pair_cuts_too_much_witness :
  DeleteCommand.execute (deleteCommand "call") nestedSource nestedTree
  = Ok (JS.take 0 nestedSource ++ JS.drop (11 + (10 - 4)) nestedSource)%string.
Proof.
  apply (delete_nested_pair_cuts_too_much (deleteCommand "call")
           (leaf "identifier" "call" 0 0) nestedSource nestedTree 0 11 4 10);
    try reflexivity; cbn; lia.
Defined.

Lemma empty_condition_matches_blank_lines_witness :
  CedarDiffServer.matchesCondition "   " whenEmpty = Ok (allSpace "   ").
Proof.
  apply (empty_condition_matches_blank_lines "   " whenEmpty); reflexivity.
Defined.
